(** * OneBox: the mail synchronisation and processing pipeline

    A shallow embedding of the backend services of the OneBox email
    aggregator (ImapService, AIService, AutomationService and
    ElasticsearchService) and the properties of its pipeline.

    The TypeScript code is asynchronous and effectful.  Every [await]ed
    call is sequential in the source, so an [async] method is embedded as a
    computation in a monad [M] that threads the state of the process and of
    the document store, collects the observable events (log lines and calls
    to the external collaborators) and propagates JavaScript exceptions.
    The collaborators themselves (mail server, MIME parser, OpenAI, the
    Elasticsearch client, axios, the clock and the time zone of the host,
    the environment variables) are the fields of a record [Env]; every
    theorem holds for all of them. *)

From Stdlib Require Import ZArith Lia.
From stdpp Require Import base option list strings pretty gmap.

Local Open Scope string_scope.
Local Open Scope list_scope.
Local Open Scope Z_scope.

(** ** JavaScript values the services manipulate *)

Module Js.

(** A thrown value: an [Error] object with its [message], or any other
    value, kept as the text [String(error)] prints. *)
Inductive Thrown : Type :=
| Error (message : string)
| NonError (text : string).

(** [error instanceof Error ? error.message : String(error)] *)
Definition message_or_string (error : Thrown) : string :=
  match error with
  | Error m => m
  | NonError t => t
  end.

(** [error instanceof Error ? error.message : 'Unknown error'] *)
Definition message_or_unknown (error : Thrown) : string :=
  match error with
  | Error m => m
  | NonError _ => "Unknown error"
  end.

(** [error.message] on a value typed [any]. *)
Definition message_of_any (error : Thrown) : string :=
  match error with
  | Error m => m
  | NonError _ => "undefined"
  end.

(** Truthiness of a string: only the empty string is falsy. *)
Definition truthy_string (s : string) : bool :=
  match s with
  | EmptyString => false
  | String _ _ => true
  end.

(** Truthiness of a possibly-[undefined] string. *)
Definition truthy (o : option string) : bool :=
  match o with
  | Some s => truthy_string s
  | None => false
  end.

(** [o || d] where [o : string | undefined] and [d : string]. *)
Definition or_else (o : option string) (d : string) : string :=
  match o with
  | Some s => if truthy_string s then s else d
  | None => d
  end.

(** [o1 || o2] where both sides may be [undefined]. *)
Definition or_opt (o1 o2 : option string) : option string :=
  if truthy o1 then o1 else o2.

(** The result of [JSON.parse]. *)
#[warnings="-register-all"]
Inductive Json : Type :=
| JNull
| JBool (b : bool)
| JNumber (z : Z)
| JString (s : string)
| JArray (items : list Json)
| JObject (fields : list (string * Json)).

Fixpoint assoc (key : string) (fields : list (string * Json)) : option Json :=
  match fields with
  | [] => None
  | (k, v) :: rest => if String.eqb k key then Some v else assoc key rest
  end.

(** Truthiness of a JSON value ([undefined] is [None]). *)
Definition truthy_json (v : option Json) : bool :=
  match v with
  | None => false
  | Some JNull => false
  | Some (JBool b) => b
  | Some (JNumber z) => negb (z =? 0)
  | Some (JString s) => truthy_string s
  | Some (JArray _) => true
  | Some (JObject _) => true
  end.

(** A JavaScript string is a sequence of UTF-16 code units; a [string]
    holds its UTF-8 encoding.  A character of the Basic Multilingual
    Plane is one code unit and one to three bytes; any other character is
    a surrogate pair, two code units, and four bytes.  A surrogate that
    is not part of a pair is written as its three bytes. *)

(** The number of bytes of the character whose first byte is [c]. *)
Definition utf8_size (c : Ascii.ascii) : nat :=
  let b := Ascii.N_of_ascii c in
  if (b <? 192)%N then 1%nat
  else if (b <? 224)%N then 2%nat
  else if (b <? 240)%N then 3%nat
  else 4%nat.

(** The number of code units of the character whose first byte is [c]. *)
Definition utf16_units (c : Ascii.ascii) : nat :=
  if (Ascii.N_of_ascii c <? 240)%N then 1%nat else 2%nat.

Definition byte_at (i : nat) (s : string) : N :=
  match String.get i s with
  | Some c => Ascii.N_of_ascii c
  | None => 0%N
  end.

(** The first code unit of the surrogate pair of the four-byte character
    that starts with [c] and goes on in [rest]: the code point without
    its ten low bits, less 0x10000, under the marker 0xD800. *)
Definition high_surrogate (c : Ascii.ascii) (rest : string) : string :=
  let upper :=
    N.lor (N.shiftl (N.land (Ascii.N_of_ascii c) 7) 8)
          (N.lor (N.shiftl (N.land (byte_at 0 rest) 63) 2)
                 (N.shiftr (N.land (byte_at 1 rest) 63) 4)) in
  let payload := (upper - 64)%N in
  String (Ascii.ascii_of_N 237)
    (String (Ascii.ascii_of_N (N.lor 160 (N.shiftr payload 6)))
       (String (Ascii.ascii_of_N (N.lor 128 (N.land payload 63))) EmptyString)).

(** The first [units] code units of [s], after the [pending] bytes that
    finish the character before them.  A cut between the two code units
    of a surrogate pair keeps the first one. *)
Fixpoint take_units (units pending : nat) (s : string) : string :=
  match s with
  | EmptyString => EmptyString
  | String c rest =>
      match pending with
      | S p => String c (take_units units p rest)
      | O =>
          match units with
          | O => EmptyString
          | S u =>
              if (Ascii.N_of_ascii c <? 240)%N
              then String c (take_units u (utf8_size c - 1) rest)
              else match u with
                   | O => high_surrogate c rest
                   | S u' => String c (take_units u' 3 rest)
                   end
          end
      end
  end.

(** [str.length]: the number of code units, after [pending] bytes. *)
Fixpoint count_units (pending : nat) (s : string) : nat :=
  match s with
  | EmptyString => O
  | String c rest =>
      match pending with
      | S p => count_units p rest
      | O => (utf16_units c + count_units (utf8_size c - 1) rest)%nat
      end
  end.

Definition length (s : string) : nat := count_units 0 s.

(** [str.substring(0, n)] *)
Definition substring0 (n : nat) (s : string) : string := take_units n 0 s.

(** [parts.join(sep)] *)
Fixpoint join (sep : string) (parts : list string) : string :=
  match parts with
  | [] => EmptyString
  | [p] => p
  | p :: rest => p +:+ sep +:+ join sep rest
  end.

(** [arr.includes(x)] on an array of strings. *)
Definition includes (arr : list string) (x : string) : bool :=
  existsb (String.eqb x) arr.

(** The double-quote and line-feed characters of a template literal. *)
Definition dquote : string := String (Ascii.ascii_of_nat 34) EmptyString.
Definition newline : string := String (Ascii.ascii_of_nat 10) EmptyString.

End Js.

(** ** Data model *)

(** A [Date] is its time value: milliseconds since the epoch. *)
Definition Date : Type := Z.

(** A [Buffer] with the raw RFC 822 source of a message. *)
Definition Buffer : Type := string.

(** interfaces/Email.ts: [EmailDocument].  [ai_category] is typed
    [AICategory] in the source, a union of string literals that the
    compiler erases: at run time it is a string. *)
Record EmailDocument : Type := mkEmailDocument {
  id : string;
  account_id : string;
  folder : string;
  message_id : string;
  subject : string;
  body_text : string;
  body_html : string;
  from : string;
  to : string;
  date : Date;
  ai_category : string;
  read : bool;
  flags : list string
}.

(** ImapService.ts: [AccountConfig]; the credentials come from
    [process.env] and may be [undefined]. *)
Record Auth : Type := mkAuth {
  user : option string;
  pass : option string
}.

Record AccountConfig : Type := mkAccountConfig {
  cfg_id : string;
  host : string;
  port : Z;
  secure : bool;
  auth : Auth
}.

(** mailparser: one mailbox of an address header; [address] is missing
    for a group. *)
Record EmailAddress : Type := mkEmailAddress {
  address : option string;
  name : string
}.

(** mailparser: [AddressObject]; [value] is read with [?.] in the source,
    so it may be missing. *)
Record AddressObject : Type := mkAddressObject {
  value : option (list EmailAddress)
}.

(** mailparser: the [to] header is one [AddressObject] or an array. *)
Inductive ToHeader : Type :=
| ToOne (recipient : AddressObject)
| ToMany (recipients : list AddressObject).

(** mailparser: the fields of [ParsedMail] the pipeline reads.
    [html] is [string | false]; [false] is [None] here. *)
Record ParsedMail : Type := mkParsedMail {
  p_subject : option string;
  p_text : option string;
  p_html : option string;
  p_textAsHtml : option string;
  p_messageId : option string;
  p_from : option AddressObject;
  p_to : option ToHeader;
  p_date : option Date
}.

(** imapflow: the fields of [FetchMessageObject] the pipeline reads.
    [flags] is a [Set<string>], here the list [Array.from] yields. *)
Record FetchMessageObject : Type := mkFetchMessageObject {
  uid : N;
  source : option Buffer;
  msg_flags : option (list string)
}.

(** imapflow: the search criteria the pipeline uses. *)
Record SearchObject : Type := mkSearchObject {
  since : option string;
  seen : option bool
}.

(** The bodies posted by AutomationService. *)
Inductive Payload : Type :=
| SlackBlocks (account sender subj : string)
| InterestedEvent (doc_id account subj sender : string) (sent : Date).

(** ** Observable events

    One event per console line and per call to an external collaborator,
    in the order the process performs them. *)

Inductive Level : Type := LOG | WARN | ERROR.

Inductive Event : Type :=
| Console (level : Level) (args : list string)
| ImapConnect (account : string)
| GetMailboxLock (account path : string)
| LockRelease (account path : string)
| ImapSearch (account : string) (query : SearchObject)
| ImapFetchOne (account : string) (seq : N)
| OnExists (account : string)
| OnError (account : string)
| SimpleParser (src : Buffer)
| ChatCompletion (model system_prompt user_prompt : string)
| EsIndex (index doc_id : string) (document : EmailDocument)
| TriggerInterestedAutomation (document : EmailDocument)
| AxiosPost (url : string) (body : Payload)
| NewDate.

(** ** The state of the process

    [es] is the content of the Elasticsearch index, keyed by document
    id; [clients] holds the keys of [ImapService.clients]; [listeners]
    the account of each registration of an ['exists'] handler; [ticks]
    counts the readings of the clock. *)
Record State : Type := mkState {
  es : gmap string EmailDocument;
  clients : list string;
  listeners : list string;
  ticks : nat
}.

Definition initial : State :=
  {| es := ∅; clients := []; listeners := []; ticks := O |}.

(** ** The monad of asynchronous methods *)

(** How a call ends: it returns a value or throws (a rejected promise). *)
Inductive Completion (A : Type) : Type :=
| Returns (a : A)
| Throws (e : Js.Thrown).
Arguments Returns {A} a.
Arguments Throws {A} e.

Record Run (A : Type) : Type := mkRun {
  completion : Completion A;
  final : State;
  events : list Event
}.
Arguments mkRun {A} completion final events.
Arguments completion {A} r.
Arguments final {A} r.
Arguments events {A} r.

Definition M (A : Type) : Type := State -> Run A.

Definition ret {A} (a : A) : M A :=
  fun s => mkRun (Returns a) s [].

Definition throw {A} (e : Js.Thrown) : M A :=
  fun s => mkRun (Throws e) s [].

Definition bind {A B} (m : M A) (k : A -> M B) : M B :=
  fun s =>
    match m s with
    | mkRun (Returns a) s1 ev1 =>
        match k a s1 with
        | mkRun c s2 ev2 => mkRun c s2 (ev1 ++ ev2)
        end
    | mkRun (Throws e) s1 ev1 => mkRun (Throws e) s1 ev1
    end.

(** [try { m } catch (error) { h error }] *)
Definition try_catch {A} (m : M A) (h : Js.Thrown -> M A) : M A :=
  fun s =>
    match m s with
    | mkRun (Returns a) s1 ev1 => mkRun (Returns a) s1 ev1
    | mkRun (Throws e) s1 ev1 =>
        match h e s1 with
        | mkRun c s2 ev2 => mkRun c s2 (ev1 ++ ev2)
        end
    end.

(** [try { m } finally { f }]: [f] runs on both paths; the completion of
    [m] is kept unless [f] itself throws. *)
Definition try_finally {A} (m : M A) (f : M unit) : M A :=
  fun s =>
    match m s with
    | mkRun c s1 ev1 =>
        match f s1 with
        | mkRun (Returns _) s2 ev2 => mkRun c s2 (ev1 ++ ev2)
        | mkRun (Throws e) s2 ev2 => mkRun (Throws e) s2 (ev1 ++ ev2)
        end
    end.

Definition emit (e : Event) : M unit :=
  fun s => mkRun (Returns tt) s [e].

Definition get : M State :=
  fun s => mkRun (Returns s) s [].

Definition modify (f : State -> State) : M unit :=
  fun s => mkRun (Returns tt) (f s) [].

(** The outcome of a call to a collaborator becomes a completion. *)
Definition lift {A} (c : Completion A) : M A :=
  fun s => mkRun c s [].

Declare Scope async_scope.
Delimit Scope async_scope with async.
Notation "x <- m ;; k" := (bind m (fun x => k))
  (at level 100, m at next level, right associativity) : async_scope.
Notation "m ;; k" := (bind m (fun _ => k))
  (at level 100, right associativity) : async_scope.
Local Open Scope async_scope.

(** [for (const x of xs) { body x }] *)
Fixpoint for_of {A} (xs : list A) (body : A -> M unit) : M unit :=
  match xs with
  | [] => ret tt
  | x :: rest => body x ;; for_of rest body
  end.

Definition console_log (args : list string) : M unit := emit (Console LOG args).
Definition console_warn (args : list string) : M unit := emit (Console WARN args).
Definition console_error (args : list string) : M unit := emit (Console ERROR args).

(** ** Calendar dates

    [Date.prototype.toISOString] prints the UTC calendar date of a time
    value; the date part is all the backfill keeps of it.  [getDate] and
    [setDate] work on the calendar of the time zone of the host, as
    ECMAScript defines them. *)

Module Calendar.

Definition MS_PER_DAY : Z := 86400000.

(** [Day(t)]: the day number of a time value (days since 1970-01-01). *)
Definition day_number (t : Date) : Z := t / MS_PER_DAY.

(** [TimeWithinDay(t)] *)
Definition TimeWithinDay (t : Z) : Z := t mod MS_PER_DAY.

(** Year, month and day of a day number in the proleptic Gregorian
    calendar. *)
Definition civil_from_days (days : Z) : Z * Z * Z :=
  let z := days + 719468 in
  let era := z / 146097 in
  let doe := z - era * 146097 in
  let yoe := (doe - doe / 1460 + doe / 36524 - doe / 146096) / 365 in
  let doy := doe - (365 * yoe + yoe / 4 - yoe / 100) in
  let mp := (5 * doy + 2) / 153 in
  let d := doy - (153 * mp + 2) / 5 + 1 in
  let m := if mp <? 10 then mp + 3 else mp - 9 in
  let y := yoe + era * 400 + (if m <=? 2 then 1 else 0) in
  (y, m, d).

(** The day number of a year, a month (1 for January) and a day of the
    month. *)
Definition days_from_civil (y m d : Z) : Z :=
  let y' := if m <=? 2 then y - 1 else y in
  let era := y' / 400 in
  let yoe := y' - era * 400 in
  let mp := if 2 <? m then m - 3 else m + 9 in
  let doy := (153 * mp + 2) / 5 + d - 1 in
  let doe := yoe * 365 + yoe / 4 - yoe / 100 + doy in
  era * 146097 + doe - 719468.

(** [YearFromTime(t)], [MonthFromTime(t)] (0 for January) and
    [DateFromTime(t)]. *)
Definition YearFromTime (t : Z) : Z :=
  let '(y, _, _) := civil_from_days (day_number t) in y.

Definition MonthFromTime (t : Z) : Z :=
  let '(_, m, _) := civil_from_days (day_number t) in m - 1.

Definition DateFromTime (t : Z) : Z :=
  let '(_, _, d) := civil_from_days (day_number t) in d.

(** [MakeDay(year, month, date)]: the day number of the first day of the
    month, counted from January of [year], plus [date - 1]. *)
Definition MakeDay (year month date : Z) : Z :=
  days_from_civil (year + month / 12) (month mod 12 + 1) 1 + date - 1.

(** [MakeDate(day, time)] *)
Definition MakeDate (day time : Z) : Z := day * MS_PER_DAY + time.

(** [s.padStart(n, '0')] *)
Definition pad_start (n : nat) (s : string) : string :=
  String.concat EmptyString (replicate (n - String.length s)%nat "0") +:+ s.

(** The year of an ISO date: four digits from 0 to 9999, otherwise the
    expanded form with a sign and six digits. *)
Definition iso_year (y : Z) : string :=
  if (0 <=? y) && (y <=? 9999) then pad_start 4 (pretty (Z.to_N y))
  else if y <? 0 then "-" +:+ pad_start 6 (pretty (Z.to_N (- y)))
  else "+" +:+ pad_start 6 (pretty (Z.to_N y)).

(** [date.toISOString().split('T')[0]] *)
Definition iso_date (t : Date) : string :=
  let '(y, m, d) := civil_from_days (day_number t) in
  iso_year y +:+ "-" +:+ pad_start 2 (pretty (Z.to_N m))
             +:+ "-" +:+ pad_start 2 (pretty (Z.to_N d)).

(** The time zone of the host is its [LocalTZA(t, isUTC)]: the offset of
    local time from UTC in milliseconds, at the time value [t] when
    [isUTC] and at the local time [t] otherwise.  The time values of the
    clock and of the dates computed from them are taken to be within the
    range of [Date], where [TimeClip] is the identity. *)
Section Zone.

Variable LocalTZA : Z -> bool -> Z.

(** [LocalTime(t)] and [UTC(t)] *)
Definition LocalTime (t : Date) : Z := t + LocalTZA t true.
Definition UTC (t : Z) : Date := t - LocalTZA t false.

(** [date.getDate()] *)
Definition getDate (t : Date) : Z := DateFromTime (LocalTime t).

(** [date.setDate(dt)]: the time value [date] holds afterwards. *)
Definition setDate (t : Date) (dt : Z) : Date :=
  let local := LocalTime t in
  UTC (MakeDate (MakeDay (YearFromTime local) (MonthFromTime local) dt)
                (TimeWithinDay local)).

End Zone.

End Calendar.

(** ** External collaborators

    What the process cannot decide itself: the environment variables, the
    clock and the time zone, and the answers of the libraries that talk to
    the network.  A call that rejects is a [Throws]. *)

Record Env : Type := mkEnv {
  (* process.env *)
  OPENAI_API_KEY : option string;
  SLACK_WEBHOOK_URL : option string;
  EXTERNAL_WEBHOOK_URL : option string;
  IMAP_ACCOUNT_1_USER : option string;
  IMAP_ACCOUNT_1_PASS : option string;
  IMAP_ACCOUNT_2_HOST : option string;
  IMAP_ACCOUNT_2_USER : option string;
  IMAP_ACCOUNT_2_PASS : option string;
  (* the n-th reading of the clock *)
  clock : nat -> Date;
  (* the time zone of the host *)
  LocalTZA : Z -> bool -> Z;
  (* imapflow, per account; search and fetch act on the locked mailbox *)
  imap_connect : AccountConfig -> Completion unit;
  imap_getMailboxLock : string -> string -> Completion unit;
  imap_search : string -> string -> SearchObject -> Completion (option (list N));
  imap_fetchOne : string -> string -> N -> Completion (option FetchMessageObject);
  (* mailparser *)
  simpleParser : Buffer -> Completion ParsedMail;
  (* openai: the [content] of each choice of the response *)
  chat_completions_create : string -> string -> string -> Completion (list (option string));
  JSON_parse : string -> Completion Js.Json;
  (* @elastic/elasticsearch: does [client.index] accept the document *)
  client_index : string -> EmailDocument -> Completion unit;
  (* axios *)
  axios_post : string -> Payload -> Completion unit
}.

(** The [!] of TypeScript asserts a value is defined and compiles to
    nothing. *)
Definition non_null (o : option string) : string := default "undefined" o.

Definition set_es (f : gmap string EmailDocument -> gmap string EmailDocument)
    (s : State) : State :=
  {| es := f (es s); clients := clients s; listeners := listeners s; ticks := ticks s |}.

Definition set_clients (f : list string -> list string) (s : State) : State :=
  {| es := es s; clients := f (clients s); listeners := listeners s; ticks := ticks s |}.

Definition set_listeners (f : list string -> list string) (s : State) : State :=
  {| es := es s; clients := clients s; listeners := f (listeners s); ticks := ticks s |}.

Definition set_ticks (f : nat -> nat) (s : State) : State :=
  {| es := es s; clients := clients s; listeners := listeners s; ticks := f (ticks s) |}.

(** [map.set(key, _)] on the keys of a [Map]: a key is kept once. *)
Definition map_set (key : string) (keys : list string) : list string :=
  if bool_decide (key ∈ keys) then keys else keys ++ [key].

(** ** The services *)

Section Services.

Variable env : Env.

(** [new Date()]: one more reading of the clock. *)
Definition new_Date : M Date :=
  emit NewDate ;;
  s <- get ;;
  modify (set_ticks S) ;;
  ret (clock env (ticks s)).

(** *** AIService.ts *)

Definition VALID_CATEGORIES : list string :=
  [ "Interested"; "Meeting Booked"; "Not Interested"; "Spam";
    "Out of Office"; "Uncategorized" ].

Definition model : string := "gpt-4o-mini".

(** [String(v)] as a template literal prints it; a number is kept as an
    integer here. *)
Fixpoint json_to_string (v : Js.Json) : string :=
  match v with
  | Js.JNull => "null"
  | Js.JBool true => "true"
  | Js.JBool false => "false"
  | Js.JNumber z => pretty z
  | Js.JString s => s
  | Js.JArray items =>
      Js.join ","
        (map (fun i => match i with
                       | Js.JNull => EmptyString
                       | _ => json_to_string i
                       end) items)
  | Js.JObject _ => "[object Object]"
  end.

Definition display (v : option Js.Json) : string :=
  match v with
  | None => "undefined"
  | Some j => json_to_string j
  end.

(** [response.choices[0].message.content]: reading [message] of a missing
    first choice is a TypeError. *)
Definition first_content (choices : list (option string)) : M (option string) :=
  match choices with
  | [] => throw (Js.Error "Cannot read properties of undefined (reading 'message')")
  | content :: _ => ret content
  end.

(** [result.category]: a TypeError on [null], [undefined] on a value that
    is no object or has no such key. *)
Definition get_category (result : Js.Json) : M (option Js.Json) :=
  match result with
  | Js.JNull => throw (Js.Error "Cannot read properties of null (reading 'category')")
  | Js.JObject fields => ret (Js.assoc "category" fields)
  | _ => ret None
  end.

(** [category && VALID_CATEGORIES.includes(category)]: [includes]
    compares with [SameValueZero], so only a string can be found. *)
Definition valid_category (category : option Js.Json) : option string :=
  match category with
  | Some (Js.JString s) =>
      if Js.truthy_string s && Js.includes VALID_CATEGORIES s then Some s else None
  | _ => None
  end.

Definition categorizeEmail (subject body : string) : M string :=
  if negb (Js.truthy (OPENAI_API_KEY env)) then ret "Uncategorized"
  else
    let systemPrompt :=
      "You are an expert email analyst for a B2B sales outreach platform. Your task is to analyze the provided email subject and body and classify the email into one of the following exact categories: "
      +:+ Js.join ", " VALID_CATEGORIES
      +:+ ". Your response MUST be a single JSON object containing only the 'category' key." in
    let userPrompt :=
      "SUBJECT: " +:+ Js.dquote +:+ subject +:+ Js.dquote +:+ Js.newline
      +:+ "BODY: " +:+ Js.dquote +:+ Js.substring0 2000 body +:+ "..." +:+ Js.dquote in
    try_catch
      (emit (ChatCompletion model systemPrompt userPrompt) ;;
       response <- lift (chat_completions_create env model systemPrompt userPrompt) ;;
       rawJson <- first_content response ;;
       if negb (Js.truthy rawJson) then
         console_warn ["[AIService] Received empty response from OpenAI."] ;;
         ret "Uncategorized"
       else
         result <- lift (JSON_parse env (non_null rawJson)) ;;
         category <- get_category result ;;
         match valid_category category with
         | Some c => ret c
         | None =>
             console_warn ["[AIService] Invalid category returned: "
                           +:+ display category +:+ ". Falling back."] ;;
             ret "Uncategorized"
         end)
      (fun error =>
         console_error ["[AIService] Error during classification API call:";
                        Js.message_or_unknown error] ;;
         ret "Uncategorized").

(** *** AutomationService.ts *)

Definition sendSlackNotification (email : EmailDocument) : M unit :=
  let payload := SlackBlocks (account_id email) (from email) (subject email) in
  try_catch
    (emit (AxiosPost (non_null (SLACK_WEBHOOK_URL env)) payload) ;;
     lift (axios_post env (non_null (SLACK_WEBHOOK_URL env)) payload) ;;
     console_log ["[Automation] Slack notification sent successfully."])
    (fun error =>
       console_error ["[Elasticsearch] Failed to index email ID " +:+ id email +:+ ":";
                      Js.message_or_string error]).

Definition triggerExternalWebhook (email : EmailDocument) : M unit :=
  try_catch
    (let payload :=
       InterestedEvent (id email) (account_id email) (subject email) (from email)
                       (date email) in
     emit (AxiosPost (non_null (EXTERNAL_WEBHOOK_URL env)) payload) ;;
     lift (axios_post env (non_null (EXTERNAL_WEBHOOK_URL env)) payload) ;;
     console_log ["[Automation] Webhook triggered to "
                  +:+ non_null (EXTERNAL_WEBHOOK_URL env)])
    (fun error =>
       console_error ["[Elasticsearch] Failed to index email ID " +:+ id email +:+ ":";
                      Js.message_or_string error]).

(** The first event marks the invocation of the method. *)
Definition triggerInterestedAutomation (email : EmailDocument) : M unit :=
  emit (TriggerInterestedAutomation email) ;;
  console_log ["[Automation] Triggering automation for " +:+ id email
               +:+ " (Category: " +:+ ai_category email +:+ ")"] ;;
  (if Js.truthy (SLACK_WEBHOOK_URL env) then sendSlackNotification email
   else console_warn ["[Automation] SLACK_WEBHOOK_URL not set. Skipping Slack notification."]) ;;
  (if Js.truthy (EXTERNAL_WEBHOOK_URL env) then triggerExternalWebhook email
   else console_warn ["[Automation] EXTERNAL_WEBHOOK_URL not set. Skipping external webhook."]).

(** *** ElasticsearchService.ts *)

Definition INDEX_NAME : string := "emails".

(** [client.index({ index, id, document })]: when the client accepts the
    request the document is stored under [id], replacing any document
    stored under it before; when it rejects, the index is unchanged. *)
Definition es_client_index (index doc_id : string) (document : EmailDocument) : M unit :=
  emit (EsIndex index doc_id document) ;;
  lift (client_index env doc_id document) ;;
  modify (set_es (insert doc_id document)).

Definition indexDocument (email : EmailDocument) : M unit :=
  try_catch
    (es_client_index INDEX_NAME (id email) email)
    (fun error =>
       console_error ["[Elasticsearch] Failed to index email ID " +:+ id email +:+ ":";
                      Js.message_or_string error]).

(** *** ImapService.ts *)

Definition ACCOUNT_CONFIGS : list AccountConfig :=
  [ {| cfg_id := "gmail-account-1";
       host := "imap.gmail.com";
       port := 993;
       secure := true;
       auth := {| user := IMAP_ACCOUNT_1_USER env; pass := IMAP_ACCOUNT_1_PASS env |} |};
    {| cfg_id := "placeholder-account-2";
       host := Js.or_else (IMAP_ACCOUNT_2_HOST env) "imap.example.com";
       port := 993;
       secure := true;
       auth := {| user := IMAP_ACCOUNT_2_USER env; pass := IMAP_ACCOUNT_2_PASS env |} |} ].

(** [addresses.filter(Boolean)] *)
Definition filter_Boolean (addresses : list (option string)) : list string :=
  flat_map (fun a => match a with
                     | Some s => if Js.truthy_string s then [s] else []
                     | None => []
                     end) addresses.

(** The immediately-invoked arrow function that computes [toList]. *)
Definition toList (parsed : ParsedMail) : string :=
  match p_to parsed with
  | None => "unknown@example.com"
  | Some t =>
      let recipients := match t with
                        | ToOne r => [r]
                        | ToMany rs => rs
                        end in
      let addresses :=
        flat_map (fun recipient => match value recipient with
                                   | Some v => map address v
                                   | None => []
                                   end) recipients in
      Js.or_else (Some (Js.join ", " (filter_Boolean addresses))) "unknown@example.com"
  end.

(** [parsed.from?.value?.[0]?.address] *)
Definition first_address (sender : option AddressObject) : option string :=
  match sender with
  | Some f =>
      match value f with
      | Some (a :: _) => address a
      | _ => None
      end
  | None => None
  end.

(** [msg.flags ? Array.from(msg.flags) : []] *)
Definition array_from (fl : option (list string)) : list string :=
  match fl with
  | Some l => l
  | None => []
  end.

(** [msg.flags ? Array.from(msg.flags).includes('\\Seen') : false] *)
Definition is_read (msg : FetchMessageObject) : bool :=
  match msg_flags msg with
  | Some fl => Js.includes fl "\Seen"
  | None => false
  end.

(** The object literal [emailDocument] of [processAndIndexEmail], as a
    function of the values in scope where it is built: [aiCategory] is the
    label the classifier returned and [now] what [parsed.date || new Date()]
    evaluated to. *)
Definition emailDocument (msg : FetchMessageObject) (accountId folder_ : string)
    (parsed : ParsedMail) (aiCategory : string) (now : Date) : EmailDocument :=
  {| id := accountId +:+ "-" +:+ pretty (uid msg);
     account_id := accountId;
     folder := folder_;
     message_id := Js.or_else (p_messageId parsed) ("no-id-" +:+ pretty (uid msg));
     subject := Js.or_else (p_subject parsed) "(No Subject)";
     body_text := Js.or_else (p_text parsed) EmptyString;
     body_html := Js.or_else (Js.or_opt (p_html parsed) (p_textAsHtml parsed)) EmptyString;
     from := Js.or_else (first_address (p_from parsed)) "unknown@example.com";
     to := toList parsed;
     date := now;
     ai_category := aiCategory;
     read := is_read msg;
     flags := array_from (msg_flags msg) |}.

(** [parsed.date || new Date()]: the clock is read only when the message
    has no date. *)
Definition date_or_now (parsed : ParsedMail) : M Date :=
  match p_date parsed with
  | Some d => ret d
  | None => new_Date
  end.

Definition processAndIndexEmail (msg : FetchMessageObject) (accountId folder_ : string)
  : M unit :=
  try_catch
    (match source msg with
     | None =>
         console_warn ["[IMAP:" +:+ accountId +:+ "] No source buffer for UID "
                       +:+ pretty (uid msg) +:+ "; skipping."]
     | Some sourceBuffer =>
         emit (SimpleParser sourceBuffer) ;;
         parsed <- lift (simpleParser env sourceBuffer) ;;
         aiCategory <- categorizeEmail
                         (Js.or_else (p_subject parsed) "(No Subject)")
                         (Js.or_else (Js.or_opt (p_text parsed) (p_html parsed)) EmptyString) ;;
         now <- date_or_now parsed ;;
         let emailDocument := emailDocument msg accountId folder_ parsed aiCategory now in
         indexDocument emailDocument ;;
         console_log ["[IMAP:" +:+ accountId +:+ "] Indexed: " +:+ Js.dquote
                      +:+ Js.substring0 40 (subject emailDocument) +:+ "..." +:+ Js.dquote
                      +:+ " -> Category: " +:+ aiCategory] ;;
         if String.eqb aiCategory "Interested" then
           triggerInterestedAutomation emailDocument
         else ret tt
     end)
    (fun error =>
       console_error ["[IMAP:" +:+ accountId +:+ "] Error processing UID "
                      +:+ pretty (uid msg) +:+ ":";
                      Js.message_or_string error]).

(** [client.fetchOne(uid, { uid, envelope, flags, source }, { uid: true })]
    followed by [if (msg) { await this.processAndIndexEmail(...) }]. *)
Definition fetch_and_process (accountId path : string) (seq : N) : M unit :=
  emit (ImapFetchOne accountId seq) ;;
  msg <- lift (imap_fetchOne env accountId path seq) ;;
  match msg with
  | Some m => processAndIndexEmail m accountId path
  | None => ret tt
  end.

(** [Array.isArray(searchResult) ? searchResult : []] *)
Definition array_or_empty (searchResult : option (list N)) : list N :=
  match searchResult with
  | Some uids => uids
  | None => []
  end.

(** [date30DaysAgo] after
    [date30DaysAgo.setDate(date30DaysAgo.getDate() - 30)], when
    [new Date()] gave [now]. *)
Definition date30DaysAgo (now : Date) : Date :=
  Calendar.setDate (LocalTZA env) now (Calendar.getDate (LocalTZA env) now - 30).

Definition initialSync (accountId : string) : M unit :=
  console_log ["[IMAP:" +:+ accountId +:+ "] Starting 30-day historical sync..."] ;;
  now <- new_Date ;;
  let sinceDate := Calendar.iso_date (date30DaysAgo now) in
  let folder := "INBOX" in
  emit (GetMailboxLock accountId folder) ;;
  lift (imap_getMailboxLock env accountId folder) ;;
  try_finally
    (let query := {| since := Some sinceDate; seen := None |} in
     emit (ImapSearch accountId query) ;;
     searchResult <- lift (imap_search env accountId folder query) ;;
     let uids := array_or_empty searchResult in
     console_log ["[IMAP:" +:+ accountId +:+ "] Found " +:+ pretty (length uids)
                  +:+ " emails in the last 30 days."] ;;
     for_of uids (fetch_and_process accountId folder))
    (emit (LockRelease accountId folder)) ;;
  console_log ["[IMAP:" +:+ accountId +:+ "] Historical sync complete."].

(** The handler [setupRealTimeIdle] registers for the ['exists'] event. *)
Definition exists_handler (accountId path : string) (count : N) : M unit :=
  console_log ["[IMAP:" +:+ accountId +:+ " - IDLE] New message detected in " +:+ path
               +:+ ". Total count: " +:+ pretty count] ;;
  try_catch
    (emit (GetMailboxLock accountId path) ;;
     lift (imap_getMailboxLock env accountId path) ;;
     try_finally
       (let query := {| since := None; seen := Some false |} in
        emit (ImapSearch accountId query) ;;
        searchResult <- lift (imap_search env accountId path query) ;;
        let uids := array_or_empty searchResult in
        (* uids.length > 0, and then uids[uids.length - 1] *)
        match last uids with
        | Some latestUid =>
            console_log ["[IMAP:" +:+ accountId +:+ " - IDLE] Fetching new message with UID: "
                         +:+ pretty latestUid] ;;
            fetch_and_process accountId path latestUid
        | None => ret tt
        end)
       (emit (LockRelease accountId path)))
    (fun error =>
       console_error ["[IMAP:" +:+ accountId +:+ " - IDLE] Error processing new mail:";
                      Js.message_of_any error]).

Definition setupRealTimeIdle (accountId : string) : M unit :=
  emit (OnExists accountId) ;;
  modify (set_listeners (fun registered => registered ++ [accountId])) ;;
  emit (OnError accountId) ;;
  console_log ["[IMAP:" +:+ accountId +:+ "] Real-Time IDLE mode listening..."].

Definition connectAndSyncAccount (config : AccountConfig) : M unit :=
  modify (set_clients (map_set (cfg_id config))) ;;
  try_catch
    (emit (ImapConnect (cfg_id config)) ;;
     lift (imap_connect env config) ;;
     console_log ["[IMAP:" +:+ cfg_id config +:+ "] Connected successfully."] ;;
     initialSync (cfg_id config) ;;
     setupRealTimeIdle (cfg_id config))
    (fun error =>
       console_error ["[IMAP:" +:+ cfg_id config +:+ "] Connection or sync failed:";
                      Js.message_or_string error]).

(** The test of [startSync] on one account: it is not the placeholder, or
    its credentials are set. *)
Definition configured (config : AccountConfig) : bool :=
  negb (String.eqb (cfg_id config) "placeholder-account-2")
  || (Js.truthy (user (auth config)) && Js.truthy (pass (auth config))).

(** The loop of [startSync], over any list of accounts. *)
Definition sync_accounts (configs : list AccountConfig) : M unit :=
  for_of configs (fun config =>
    if configured config then connectAndSyncAccount config
    else console_warn ["[IMAP:" +:+ cfg_id config
                       +:+ "] Skipping sync: Credentials missing in .env."]).

Definition startSync : M unit := sync_accounts ACCOUNT_CONFIGS.

End Services.

(** ** Reading a trace *)

Definition store_write (e : Event) : option EmailDocument :=
  match e with
  | EsIndex _ _ d => Some d
  | _ => None
  end.

Definition oracle_call (e : Event) : option (string * string) :=
  match e with
  | ChatCompletion _ system_prompt user_prompt => Some (system_prompt, user_prompt)
  | _ => None
  end.

Definition notification (e : Event) : option EmailDocument :=
  match e with
  | TriggerInterestedAutomation d => Some d
  | _ => None
  end.

Definition fetch (e : Event) : option N :=
  match e with
  | ImapFetchOne _ seq => Some seq
  | _ => None
  end.

Definition parse (e : Event) : option Buffer :=
  match e with
  | SimpleParser src => Some src
  | _ => None
  end.

(** The documents sent to the Document Store, the prompts sent to the
    Classification Oracle, the documents handed to the Notification Sink,
    the UIDs fetched and the sources parsed, each in order. *)
Definition indexed (evs : list Event) : list EmailDocument := omap store_write evs.
Definition classified (evs : list Event) : list (string * string) := omap oracle_call evs.
Definition notified (evs : list Event) : list EmailDocument := omap notification evs.
Definition fetched (evs : list Event) : list N := omap fetch evs.
Definition parsed_sources (evs : list Event) : list Buffer := omap parse evs.

(** Events of the classifier: console lines and calls to the oracle. *)
Definition of_classifier (e : Event) : Prop :=
  match e with
  | Console _ _ | ChatCompletion _ _ _ => True
  | _ => False
  end.

(** Events of the notification sink, after its invocation. *)
Definition of_sink (e : Event) : Prop :=
  match e with
  | Console _ _ | AxiosPost _ _ => True
  | _ => False
  end.

(** Events of the message processor: none of them talks to the mail
    server or parses a source. *)
Definition of_pipeline (e : Event) : Prop :=
  match e with
  | Console _ _ | ChatCompletion _ _ _ | EsIndex _ _ _
  | TriggerInterestedAutomation _ | AxiosPost _ _ | NewDate => True
  | _ => False
  end.

(** [doc] with its [date] replaced. *)
Definition with_date (d : Date) (doc : EmailDocument) : EmailDocument :=
  {| id := id doc; account_id := account_id doc; folder := folder doc;
     message_id := message_id doc; subject := subject doc;
     body_text := body_text doc; body_html := body_html doc;
     from := from doc; to := to doc; date := d;
     ai_category := ai_category doc; read := read doc; flags := flags doc |}.

(** ** Lemmas on the monad and on traces *)

(** Log lines and prompts stay as they are written when a run is
    simplified. *)
#[local] Arguments String.append : simpl never.
#[local] Arguments pretty : simpl never.
#[local] Arguments Calendar.iso_date : simpl never.
#[local] Arguments Js.substring0 : simpl never.
#[local] Arguments Js.join : simpl never.
#[local] Arguments date30DaysAgo : simpl never.

Lemma omap_none {A} (f : Event -> option A) (evs : list Event) :
  Forall (fun e => f e = None) evs -> omap f evs = [].
Proof.
  induction 1 as [|e evs He _ IH]; [reflexivity|].
  simpl. rewrite He. exact IH.
Qed.

Lemma of_classifier_pipeline (evs : list Event) :
  Forall of_classifier evs -> Forall of_pipeline evs.
Proof. intros H. eapply Forall_impl; [exact H|]. intros []; simpl; tauto. Qed.

Lemma of_sink_pipeline (evs : list Event) :
  Forall of_sink evs -> Forall of_pipeline evs.
Proof. intros H. eapply Forall_impl; [exact H|]. intros []; simpl; tauto. Qed.

Lemma of_classifier_quiet (evs : list Event) :
  Forall of_classifier evs -> indexed evs = [] /\ notified evs = [].
Proof.
  intros H; split; apply omap_none; (eapply Forall_impl; [exact H|]);
    intros []; simpl; tauto.
Qed.

Lemma of_sink_quiet (evs : list Event) :
  Forall of_sink evs -> indexed evs = [] /\ notified evs = [] /\ classified evs = [].
Proof.
  intros H; repeat split; apply omap_none; (eapply Forall_impl; [exact H|]);
    intros []; simpl; tauto.
Qed.

Lemma of_pipeline_quiet (evs : list Event) :
  Forall of_pipeline evs -> fetched evs = [] /\ parsed_sources evs = [].
Proof.
  intros H; split; apply omap_none; (eapply Forall_impl; [exact H|]);
    intros []; simpl; tauto.
Qed.

Lemma for_of_cons {A} (x : A) (xs : list A) (body : A -> M unit) (s : State) :
  completion (body x s) = Returns tt ->
  for_of (x :: xs) body s =
    let r := for_of xs body (final (body x s)) in
    mkRun (completion r) (final r) (events (body x s) ++ events r).
Proof.
  intros H. simpl. unfold bind. destruct (body x s) as [c f ev]. simpl in *.
  subst c. by destruct (for_of xs body f).
Qed.

Lemma for_of_throws {A} (x : A) (xs : list A) (body : A -> M unit) (s : State) e :
  completion (body x s) = Throws e ->
  for_of (x :: xs) body s = mkRun (Throws e) (final (body x s)) (events (body x s)).
Proof.
  intros H. simpl. unfold bind. destruct (body x s) as [c f ev]. simpl in *.
  by subst c.
Qed.

Lemma run_eta {A} (r : Run A) : r = mkRun (completion r) (final r) (events r).
Proof. by destruct r. Qed.

Lemma bind_returns {A B} (m : M A) (k : A -> M B) (s s1 : State) (a : A)
    (ev1 : list Event) :
  m s = mkRun (Returns a) s1 ev1 ->
  bind m k s = mkRun (completion (k a s1)) (final (k a s1)) (ev1 ++ events (k a s1)).
Proof. intros H. unfold bind. rewrite H. by destruct (k a s1). Qed.

Lemma bind_throws {A B} (m : M A) (k : A -> M B) (s s1 : State) (e : Js.Thrown)
    (ev1 : list Event) :
  m s = mkRun (Throws e) s1 ev1 ->
  bind m k s = mkRun (Throws e) s1 ev1.
Proof. intros H. unfold bind. by rewrite H. Qed.

(** ** The shape of the runs of each service *)

Section Runs.

Variable env : Env.

Lemma includes_elem_of (arr : list string) (x : string) :
  Js.includes arr x = true -> x ∈ arr.
Proof.
  unfold Js.includes. intros H. apply existsb_exists in H.
  destruct H as (y & Hy & Heq). apply String.eqb_eq in Heq. subst y.
  by apply list_elem_of_In.
Qed.

Lemma valid_category_elem_of (v : option Js.Json) (c : string) :
  valid_category v = Some c -> v = Some (Js.JString c) /\ c ∈ VALID_CATEGORIES.
Proof.
  unfold valid_category.
  destruct v as [[| | |str| |]|]; try discriminate.
  destruct (Js.truthy_string str); [|discriminate].
  destruct (Js.includes VALID_CATEGORIES str) eqn:Hin; [|discriminate].
  intros [= <-]. split; [reflexivity|]. by apply includes_elem_of.
Qed.

Lemma Uncategorized_valid : "Uncategorized" ∈ VALID_CATEGORIES.
Proof. apply includes_elem_of. reflexivity. Qed.

Lemma includes_iff (arr : list string) (x : string) :
  Js.includes arr x = true <-> x ∈ arr.
Proof.
  split; [apply includes_elem_of|].
  intros H. unfold Js.includes. apply existsb_exists. exists x.
  split; [by apply list_elem_of_In|apply String.eqb_refl].
Qed.

(** The classifier always returns one of the six labels, leaves the state
    alone, and only logs and calls the oracle; the label and the events do
    not depend on the state. *)
Lemma categorizeEmail_run (subj body : string) :
  exists c evs,
    (forall s, categorizeEmail env subj body s = mkRun (Returns c) s evs)
    /\ c ∈ VALID_CATEGORIES
    /\ Forall of_classifier evs.
Proof.
  unfold categorizeEmail.
  destruct (Js.truthy (OPENAI_API_KEY env)); simpl.
  2: { eexists _, _. split; [reflexivity|]. split; [apply Uncategorized_valid|constructor]. }
  unfold try_catch, bind, emit, lift, console_warn, console_error, emit, ret; simpl.
  destruct (chat_completions_create env _ _ _) as [choices|e]; simpl.
  2: { eexists _, _. split; [reflexivity|].
       split; [apply Uncategorized_valid|repeat constructor]. }
  destruct choices as [|content rest]; simpl.
  { eexists _, _. split; [reflexivity|].
    split; [apply Uncategorized_valid|repeat constructor]. }
  destruct (Js.truthy content); simpl.
  2: { eexists _, _. split; [reflexivity|].
       split; [apply Uncategorized_valid|repeat constructor]. }
  destruct (JSON_parse env _) as [result|e]; simpl.
  2: { eexists _, _. split; [reflexivity|].
       split; [apply Uncategorized_valid|repeat constructor]. }
  destruct result; simpl;
    try (eexists _, _; split; [reflexivity|];
         split; [apply Uncategorized_valid|repeat constructor]).
  destruct (valid_category (Js.assoc "category" fields)) as [c|] eqn:Hv; simpl.
  - apply valid_category_elem_of in Hv as [_ Hv].
    eexists _, _. split; [reflexivity|]. split; [exact Hv|repeat constructor].
  - eexists _, _. split; [reflexivity|].
    split; [apply Uncategorized_valid|repeat constructor].
Qed.

(** The store service swallows a rejected write: it returns in both
    cases, and the index changes only when the client accepted. *)
Lemma indexDocument_accepted (doc : EmailDocument) (s : State) :
  client_index env (id doc) doc = Returns tt ->
  indexDocument env doc s =
    mkRun (Returns tt) (set_es (insert (id doc) doc) s)
          [EsIndex INDEX_NAME (id doc) doc].
Proof.
  intros H. unfold indexDocument, es_client_index, try_catch, bind, emit, lift, modify.
  simpl. rewrite H. reflexivity.
Qed.

Lemma indexDocument_rejected (doc : EmailDocument) (s : State) (e : Js.Thrown) :
  client_index env (id doc) doc = Throws e ->
  indexDocument env doc s =
    mkRun (Returns tt) s
          [EsIndex INDEX_NAME (id doc) doc;
           Console ERROR ["[Elasticsearch] Failed to index email ID " +:+ id doc +:+ ":";
                          Js.message_or_string e]].
Proof.
  intros H. unfold indexDocument, es_client_index, try_catch, bind, emit, lift, modify.
  simpl. rewrite H. reflexivity.
Qed.

Lemma indexDocument_run (doc : EmailDocument) (s : State) :
  exists s' evs,
    indexDocument env doc s = mkRun (Returns tt) s' (EsIndex INDEX_NAME (id doc) doc :: evs)
    /\ Forall of_sink evs
    /\ ticks s' = ticks s.
Proof.
  destruct (client_index env (id doc) doc) as [[]|e] eqn:H.
  - rewrite (indexDocument_accepted _ _ H). eexists _, _.
    split; [reflexivity|]. split; [constructor|reflexivity].
  - rewrite (indexDocument_rejected _ _ _ H). eexists _, _.
    split; [reflexivity|]. split; [repeat constructor|reflexivity].
Qed.

(** A channel of the sink catches its own failure. *)
Lemma sendSlackNotification_run (doc : EmailDocument) (s : State) :
  exists evs,
    sendSlackNotification env doc s = mkRun (Returns tt) s evs /\ Forall of_sink evs.
Proof.
  unfold sendSlackNotification, try_catch, bind, emit, lift, console_log, console_error.
  simpl. destruct (axios_post env _ _) as [[]|e]; simpl;
    eexists; (split; [reflexivity|repeat constructor]).
Qed.

Lemma triggerExternalWebhook_run (doc : EmailDocument) (s : State) :
  exists evs,
    triggerExternalWebhook env doc s = mkRun (Returns tt) s evs /\ Forall of_sink evs.
Proof.
  unfold triggerExternalWebhook, try_catch, bind, emit, lift, console_log, console_error.
  simpl. destruct (axios_post env _ _) as [[]|e]; simpl;
    eexists; (split; [reflexivity|repeat constructor]).
Qed.

(** The sink never throws and leaves the state alone; its first event is
    its invocation and no other event is one. *)
Lemma triggerInterestedAutomation_run (doc : EmailDocument) (s : State) :
  exists evs,
    triggerInterestedAutomation env doc s =
      mkRun (Returns tt) s (TriggerInterestedAutomation doc :: evs)
    /\ Forall of_sink evs.
Proof.
  unfold triggerInterestedAutomation.
  destruct (sendSlackNotification_run doc s) as (ev1 & H1 & F1).
  destruct (triggerExternalWebhook_run doc s) as (ev2 & H2 & F2).
  unfold bind at 1. simpl. unfold bind at 1. simpl. unfold bind at 1.
  destruct (Js.truthy (SLACK_WEBHOOK_URL env)), (Js.truthy (EXTERNAL_WEBHOOK_URL env));
    simpl; rewrite ?H1; simpl; rewrite ?H2; simpl;
    eexists; (split; [reflexivity|]);
    repeat first [ apply Forall_cons; split; [exact I|]
                 | apply Forall_app; split
                 | assumption
                 | apply Forall_nil_2 ].
Qed.

(** [parsed.date || new Date()] returns the parsed date, or else the next
    reading of the clock. *)
Lemma date_or_now_run (parsed : ParsedMail) (s : State) :
  date_or_now env parsed s =
    match p_date parsed with
    | Some d => mkRun (Returns d) s []
    | None => mkRun (Returns (clock env (ticks s))) (set_ticks S s) [NewDate]
    end.
Proof. unfold date_or_now. destruct (p_date parsed); reflexivity. Qed.

(** *** The three ways [processAndIndexEmail] ends *)

Lemma processAndIndexEmail_no_source (msg : FetchMessageObject)
    (accountId folder_ : string) (s : State) :
  source msg = None ->
  processAndIndexEmail env msg accountId folder_ s =
    mkRun (Returns tt) s
          [Console WARN ["[IMAP:" +:+ accountId +:+ "] No source buffer for UID "
                         +:+ pretty (uid msg) +:+ "; skipping."]].
Proof. intros H. unfold processAndIndexEmail. rewrite H. reflexivity. Qed.

Lemma processAndIndexEmail_unparseable (msg : FetchMessageObject)
    (accountId folder_ : string) (s : State) (src : Buffer) (e : Js.Thrown) :
  source msg = Some src ->
  simpleParser env src = Throws e ->
  processAndIndexEmail env msg accountId folder_ s =
    mkRun (Returns tt) s
          [SimpleParser src;
           Console ERROR ["[IMAP:" +:+ accountId +:+ "] Error processing UID "
                          +:+ pretty (uid msg) +:+ ":";
                          Js.message_or_string e]].
Proof.
  intros Hsrc Hparse. unfold processAndIndexEmail. rewrite Hsrc.
  unfold try_catch, bind, emit, lift, console_error. simpl. rewrite Hparse. reflexivity.
Qed.

(** What [parsed.date || new Date()] evaluates to in state [s]. *)
Definition date_in (parsed : ParsedMail) (s : State) : Date :=
  match p_date parsed with
  | Some d => d
  | None => clock env (ticks s)
  end.

Lemma processAndIndexEmail_processed (msg : FetchMessageObject)
    (accountId folder_ : string) (s : State) (src : Buffer) (parsed : ParsedMail) :
  source msg = Some src ->
  simpleParser env src = Returns parsed ->
  exists c evc evt,
    c ∈ VALID_CATEGORIES
    /\ Forall of_classifier evc
    /\ Forall of_sink evt
    /\ (forall s',
          categorizeEmail env (Js.or_else (p_subject parsed) "(No Subject)")
            (Js.or_else (Js.or_opt (p_text parsed) (p_html parsed)) EmptyString) s'
          = mkRun (Returns c) s' evc)
    /\ let rd := date_or_now env parsed s in
       let doc := emailDocument msg accountId folder_ parsed c (date_in parsed s) in
       let ri := indexDocument env doc (final rd) in
       processAndIndexEmail env msg accountId folder_ s =
         mkRun (Returns tt) (final ri)
               ([SimpleParser src] ++ evc ++ events rd ++ events ri
                ++ [Console LOG ["[IMAP:" +:+ accountId +:+ "] Indexed: " +:+ Js.dquote
                                 +:+ Js.substring0 40 (subject doc) +:+ "..." +:+ Js.dquote
                                 +:+ " -> Category: " +:+ c]]
                ++ (if String.eqb c "Interested"
                    then TriggerInterestedAutomation doc :: evt else [])).
Proof.
  intros Hsrc Hparse.
  destruct (categorizeEmail_run (Js.or_else (p_subject parsed) "(No Subject)")
              (Js.or_else (Js.or_opt (p_text parsed) (p_html parsed)) EmptyString))
    as (c & evc & Hcat & Hc & Fc).
  set (doc := emailDocument msg accountId folder_ parsed c (date_in parsed s)).
  destruct (indexDocument_run doc (final (date_or_now env parsed s)))
    as (si & evi & Hidx & Fi & _).
  destruct (triggerInterestedAutomation_run doc si) as (evt & Htrig & Ft).
  exists c, evc, evt. repeat (split; [assumption|]).
  cbv zeta. fold doc. rewrite Hidx.
  unfold processAndIndexEmail. rewrite Hsrc.
  unfold try_catch, bind, emit, lift, console_log. simpl.
  rewrite Hparse, Hcat.
  assert (Hd : date_or_now env parsed s
               = mkRun (Returns (date_in parsed s)) (final (date_or_now env parsed s))
                       (events (date_or_now env parsed s))).
  { rewrite date_or_now_run. unfold date_in. by destruct (p_date parsed). }
  rewrite Hd. simpl. fold doc. rewrite Hidx. simpl.
  destruct (String.eqb c "Interested"); simpl.
  - rewrite Htrig. simpl. rewrite <- ?app_assoc. simpl. reflexivity.
  - rewrite <- ?app_assoc. simpl. reflexivity.
Qed.

(** Whatever happens to a message, the processor returns, and all it
    does besides its pipeline is parse the source it was given. *)
Lemma processAndIndexEmail_returns (msg : FetchMessageObject)
    (accountId folder_ : string) (s : State) :
  completion (processAndIndexEmail env msg accountId folder_ s) = Returns tt.
Proof.
  destruct (source msg) as [src|] eqn:Hsrc.
  - destruct (simpleParser env src) as [parsed|e] eqn:Hparse.
    + destruct (processAndIndexEmail_processed msg accountId folder_ s src parsed Hsrc Hparse)
        as (c & evc & evt & _ & _ & _ & _ & ->). reflexivity.
    + by rewrite (processAndIndexEmail_unparseable msg accountId folder_ s src e Hsrc Hparse).
  - by rewrite (processAndIndexEmail_no_source msg accountId folder_ s Hsrc).
Qed.

Lemma processAndIndexEmail_events (msg : FetchMessageObject)
    (accountId folder_ : string) (s : State) :
  exists evs,
    events (processAndIndexEmail env msg accountId folder_ s)
      = match source msg with
        | Some src => SimpleParser src :: evs
        | None => evs
        end
    /\ Forall of_pipeline evs.
Proof.
  destruct (source msg) as [src|] eqn:Hsrc.
  - destruct (simpleParser env src) as [parsed|e] eqn:Hparse.
    + destruct (processAndIndexEmail_processed msg accountId folder_ s src parsed Hsrc Hparse)
        as (c & evc & evt & _ & Fc & Ft & _ & ->).
      destruct (indexDocument_run
                  (emailDocument msg accountId folder_ parsed c (date_in parsed s))
                  (final (date_or_now env parsed s))) as (si & evi & -> & Fi & _).
      simpl. eexists. split; [reflexivity|].
      apply Forall_app; split; [by apply of_classifier_pipeline|].
      apply Forall_app; split.
      { rewrite date_or_now_run. destruct (p_date parsed); repeat constructor. }
      apply Forall_cons; split; [exact I|].
      apply Forall_app; split; [by apply of_sink_pipeline|].
      apply Forall_cons; split; [exact I|].
      destruct (String.eqb c "Interested"); [|constructor].
      apply Forall_cons; split; [exact I|]. by apply of_sink_pipeline.
    + rewrite (processAndIndexEmail_unparseable msg accountId folder_ s src e Hsrc Hparse).
      simpl. eexists. split; [reflexivity|]. repeat constructor.
  - rewrite (processAndIndexEmail_no_source msg accountId folder_ s Hsrc).
    simpl. eexists. split; [reflexivity|]. repeat constructor.
Qed.

Lemma processAndIndexEmail_fetches_nothing (msg : FetchMessageObject)
    (accountId folder_ : string) (s : State) :
  fetched (events (processAndIndexEmail env msg accountId folder_ s)) = []
  /\ parsed_sources (events (processAndIndexEmail env msg accountId folder_ s))
     = option_list (source msg).
Proof.
  destruct (processAndIndexEmail_events msg accountId folder_ s) as (evs & -> & F).
  apply of_pipeline_quiet in F as [Hf Hp]. unfold fetched, parsed_sources in *.
  destruct (source msg); cbn; rewrite ?Hf, ?Hp; done.
Qed.

(** *** One fetch and the backfill loop *)

(** The source the processor receives when [seq] is fetched, if any. *)
Definition source_at (accountId path : string) (seq : N) : option Buffer :=
  match imap_fetchOne env accountId path seq with
  | Returns (Some m) => source m
  | _ => None
  end.

Lemma fetch_and_process_run (accountId path : string) (seq : N) (s : State) :
  let r := fetch_and_process env accountId path seq s in
  completion r = match imap_fetchOne env accountId path seq with
                 | Returns _ => Returns tt
                 | Throws e => Throws e
                 end
  /\ fetched (events r) = [seq]
  /\ parsed_sources (events r) = option_list (source_at accountId path seq)
  /\ events r = ImapFetchOne accountId seq ::
                match imap_fetchOne env accountId path seq with
                | Returns (Some m) => events (processAndIndexEmail env m accountId path s)
                | _ => []
                end.
Proof.
  unfold fetch_and_process, source_at, bind, emit, lift. simpl.
  destruct (imap_fetchOne env accountId path seq) as [[m|]|e]; simpl; try done.
  pose proof (processAndIndexEmail_returns m accountId path s) as Hr.
  destruct (processAndIndexEmail_fetches_nothing m accountId path s) as [Hf Hp].
  destruct (processAndIndexEmail env m accountId path s) as [c f ev].
  unfold fetched, parsed_sources in *. cbn in *. by rewrite Hr, Hf, Hp.
Qed.

(** The loop visits the UIDs in order and stops at the first fetch that
    throws: what it fetches is a prefix of what it was given. *)
Lemma for_of_fetch_prefix (accountId path : string) (uids : list N) (s : State) :
  fetched (events (for_of uids (fetch_and_process env accountId path) s))
    `prefix_of` uids.
Proof.
  revert s. induction uids as [|u uids IH]; intros s; [by exists []|].
  destruct (fetch_and_process_run accountId path u s) as (Hc & Hf & _ & _).
  destruct (imap_fetchOne env accountId path u) as [m|e].
  - rewrite (for_of_cons _ _ _ _ Hc). simpl. unfold fetched in *.
    rewrite omap_app, Hf. simpl. apply prefix_cons, IH.
  - rewrite (for_of_throws _ _ _ _ _ Hc). simpl. unfold fetched in *.
    rewrite Hf. apply prefix_cons, prefix_nil.
Qed.

(** When every fetch returns (a message or nothing), the loop runs to the
    end, however the processing of each message goes. *)
Lemma for_of_fetch_all (accountId path : string) (uids : list N) (s : State) :
  (forall u, u ∈ uids -> exists m, imap_fetchOne env accountId path u = Returns m) ->
  let r := for_of uids (fetch_and_process env accountId path) s in
  completion r = Returns tt
  /\ fetched (events r) = uids
  /\ parsed_sources (events r) = omap (source_at accountId path) uids.
Proof.
  revert s. induction uids as [|u uids IH]; intros s Hall; [done|].
  destruct (fetch_and_process_run accountId path u s) as (Hc & Hf & Hp & _).
  destruct (Hall u) as [m Hm]; [by left|]. rewrite Hm in Hc.
  rewrite (for_of_cons _ _ _ _ Hc). cbv zeta. simpl completion. simpl events.
  destruct (IH (final (fetch_and_process env accountId path u s))) as (IHc & IHf & IHp).
  { intros u' Hu'. apply Hall. by right. }
  unfold fetched, parsed_sources in *.
  rewrite !omap_app, Hf, Hp, IHf, IHp. split; [exact IHc|]. split; [done|].
  simpl. destruct (source_at accountId path u); done.
Qed.

(** *** Backfill *)

(** The criteria of the backfill search in state [s]: the date part of
    the next clock reading moved back by 30 days. *)
Definition backfill_query (s : State) : SearchObject :=
  {| since := Some (Calendar.iso_date (date30DaysAgo env (clock env (ticks s))));
     seen := None |}.

Lemma initialSync_run (accountId : string) (s : State) (res : option (list N)) :
  imap_getMailboxLock env accountId "INBOX" = Returns tt ->
  imap_search env accountId "INBOX" (backfill_query s) = Returns res ->
  let loop := for_of (array_or_empty res) (fetch_and_process env accountId "INBOX")
                     (set_ticks S s) in
  initialSync env accountId s =
    mkRun (match completion loop with
           | Returns _ => Returns tt
           | Throws e => Throws e
           end)
          (final loop)
          ([Console LOG ["[IMAP:" +:+ accountId +:+ "] Starting 30-day historical sync..."];
            NewDate;
            GetMailboxLock accountId "INBOX";
            ImapSearch accountId (backfill_query s);
            Console LOG ["[IMAP:" +:+ accountId +:+ "] Found "
                         +:+ pretty (length (array_or_empty res))
                         +:+ " emails in the last 30 days."]]
           ++ events loop
           ++ LockRelease accountId "INBOX"
              :: match completion loop with
                 | Returns _ => [Console LOG ["[IMAP:" +:+ accountId
                                              +:+ "] Historical sync complete."]]
                 | Throws _ => []
                 end).
Proof.
  intros Hlock Hsearch loop.
  unfold initialSync, new_Date, try_finally, bind, emit, lift, get, modify, console_log.
  simpl. rewrite Hlock. simpl.
  unfold backfill_query in Hsearch. simpl in Hsearch. rewrite Hsearch. simpl.
  fold loop. destruct loop as [[[]|e] f ev]; simpl; rewrite <- ?app_assoc; reflexivity.
Qed.

(** *** Live sync *)

(** The criteria of the live-sync search: messages not yet seen. *)
Definition unseen_query : SearchObject := {| since := None; seen := Some false |}.

Lemma exists_handler_run (accountId path : string) (count : N) (s : State)
    (res : option (list N)) :
  imap_getMailboxLock env accountId path = Returns tt ->
  imap_search env accountId path unseen_query = Returns res ->
  exists_handler env accountId path count s =
    let detected :=
      Console LOG ["[IMAP:" +:+ accountId +:+ " - IDLE] New message detected in " +:+ path
                   +:+ ". Total count: " +:+ pretty count] in
    match last (array_or_empty res) with
    | None =>
        mkRun (Returns tt) s
              [detected; GetMailboxLock accountId path; ImapSearch accountId unseen_query;
               LockRelease accountId path]
    | Some latestUid =>
        let r := fetch_and_process env accountId path latestUid s in
        mkRun (Returns tt) (final r)
              ([detected; GetMailboxLock accountId path; ImapSearch accountId unseen_query;
                Console LOG ["[IMAP:" +:+ accountId
                             +:+ " - IDLE] Fetching new message with UID: "
                             +:+ pretty latestUid]]
               ++ events r
               ++ LockRelease accountId path
                  :: match completion r with
                     | Returns _ => []
                     | Throws e =>
                         [Console ERROR ["[IMAP:" +:+ accountId
                                         +:+ " - IDLE] Error processing new mail:";
                                         Js.message_of_any e]]
                     end)
    end.
Proof.
  intros Hlock Hsearch.
  unfold exists_handler, try_catch, try_finally, bind, emit, lift, console_log,
    console_error.
  simpl. rewrite Hlock. simpl.
  unfold unseen_query in Hsearch. rewrite Hsearch. simpl.
  destruct (last (array_or_empty res)) as [u|]; simpl; [|reflexivity].
  destruct (fetch_and_process env accountId path u s) as [[[]|e] f ev]; simpl;
    rewrite <- ?app_assoc; simpl; rewrite ?app_nil_r; reflexivity.
Qed.

(** The handler catches whatever its body throws. *)
Lemma exists_handler_returns (accountId path : string) (count : N) (s : State) :
  completion (exists_handler env accountId path count s) = Returns tt.
Proof.
  unfold exists_handler, try_catch, try_finally, bind, emit, lift, console_log,
    console_error.
  simpl. destruct (imap_getMailboxLock env accountId path) as [[]|e]; simpl; [|done].
  destruct (imap_search env accountId path _) as [res|e]; simpl; [|done].
  destruct (last (array_or_empty res)) as [u|]; simpl; [|done].
  by destruct (fetch_and_process env accountId path u s) as [[[]|e] f ev].
Qed.

(** *** The account supervisor *)

Lemma connectAndSyncAccount_connect_fails (config : AccountConfig) (s : State)
    (e : Js.Thrown) :
  imap_connect env config = Throws e ->
  connectAndSyncAccount env config s =
    mkRun (Returns tt) (set_clients (map_set (cfg_id config)) s)
          [ImapConnect (cfg_id config);
           Console ERROR ["[IMAP:" +:+ cfg_id config +:+ "] Connection or sync failed:";
                          Js.message_or_string e]].
Proof.
  intros H. unfold connectAndSyncAccount, try_catch, bind, emit, lift, modify,
    console_error. simpl. rewrite H. reflexivity.
Qed.

Lemma connectAndSyncAccount_connected (config : AccountConfig) (s : State) :
  imap_connect env config = Returns tt ->
  let s0 := set_clients (map_set (cfg_id config)) s in
  let backfill := initialSync env (cfg_id config) s0 in
  connectAndSyncAccount env config s =
    mkRun (Returns tt)
          (match completion backfill with
           | Returns _ =>
               set_listeners (fun registered => registered ++ [cfg_id config])
                             (final backfill)
           | Throws _ => final backfill
           end)
          ([ImapConnect (cfg_id config);
            Console LOG ["[IMAP:" +:+ cfg_id config +:+ "] Connected successfully."]]
           ++ events backfill
           ++ match completion backfill with
              | Returns _ =>
                  [OnExists (cfg_id config); OnError (cfg_id config);
                   Console LOG ["[IMAP:" +:+ cfg_id config
                                +:+ "] Real-Time IDLE mode listening..."]]
              | Throws e =>
                  [Console ERROR ["[IMAP:" +:+ cfg_id config
                                  +:+ "] Connection or sync failed:";
                                  Js.message_or_string e]]
              end).
Proof.
  intros H s0 backfill.
  unfold connectAndSyncAccount, setupRealTimeIdle, try_catch, bind, emit, lift, modify,
    console_log, console_error. simpl. rewrite H. simpl. fold s0. fold backfill.
  destruct backfill as [[[]|e] f ev]; simpl; rewrite <- ?app_assoc; reflexivity.
Qed.

Lemma connectAndSyncAccount_returns (config : AccountConfig) (s : State) :
  completion (connectAndSyncAccount env config s) = Returns tt.
Proof.
  destruct (imap_connect env config) as [[]|e] eqn:H.
  - by rewrite (connectAndSyncAccount_connected _ _ H).
  - by rewrite (connectAndSyncAccount_connect_fails _ _ _ H).
Qed.

(** The body of the loop of [startSync]. *)
Definition sync_account (config : AccountConfig) : M unit :=
  if configured config then connectAndSyncAccount env config
  else console_warn ["[IMAP:" +:+ cfg_id config
                     +:+ "] Skipping sync: Credentials missing in .env."].

Lemma sync_account_returns (config : AccountConfig) (s : State) :
  completion (sync_account config s) = Returns tt.
Proof.
  unfold sync_account. destruct (configured config); [|reflexivity].
  apply connectAndSyncAccount_returns.
Qed.

Lemma sync_accounts_for_of (configs : list AccountConfig) :
  sync_accounts env configs = for_of configs sync_account.
Proof. reflexivity. Qed.

Lemma sync_accounts_cons (config : AccountConfig) (configs : list AccountConfig)
    (s : State) :
  sync_accounts env (config :: configs) s =
    let r := sync_accounts env configs (final (sync_account config s)) in
    mkRun (completion r) (final r) (events (sync_account config s) ++ events r).
Proof.
  rewrite !sync_accounts_for_of. apply for_of_cons, sync_account_returns.
Qed.

Lemma sync_accounts_returns (configs : list AccountConfig) (s : State) :
  completion (sync_accounts env configs s) = Returns tt.
Proof.
  revert s. induction configs as [|c configs IH]; intros s; [reflexivity|].
  rewrite sync_accounts_cons. apply IH.
Qed.

(** The run over a list of accounts is the run over its first part
    followed by the run over the rest. *)
Lemma sync_accounts_app (before after : list AccountConfig) (s : State) :
  sync_accounts env (before ++ after) s =
    let r := sync_accounts env after (final (sync_accounts env before s)) in
    mkRun (Returns tt) (final r) (events (sync_accounts env before s) ++ events r).
Proof.
  revert s. induction before as [|c before IH]; intros s.
  - simpl. pose proof (sync_accounts_returns after s) as H.
    destruct (sync_accounts env after s) as [c f ev]. simpl in *. by rewrite H.
  - rewrite <- app_comm_cons, !sync_accounts_cons. cbv zeta. rewrite IH. cbv zeta.
    simpl. by rewrite app_assoc.
Qed.

End Runs.

(** ** A concrete deployment

    Two accounts, a mailbox with the messages 7 and 9, an oracle that
    answers [Interested], and knobs for the failures the properties below
    are about. *)

Module Demo.

Definition interested_json : string :=
  "{" +:+ Js.dquote +:+ "category" +:+ Js.dquote +:+ ":"
      +:+ Js.dquote +:+ "Interested" +:+ Js.dquote +:+ "}".

(** A reply with neither a [Date] nor a [To] header. *)
Definition proposal : ParsedMail :=
  {| p_subject := Some "Re: Proposal";
     p_text := Some "Sounds good, let us talk.";
     p_html := None;
     p_textAsHtml := None;
     p_messageId := None;
     p_from := Some {| value := Some [ {| address := Some "lead@example.com";
                                          name := "Lead" |} ] |};
     p_to := None;
     p_date := None |}.

Definition msg7 : FetchMessageObject :=
  {| uid := 7; source := Some "raw-7"; msg_flags := Some ["\Seen"] |}.

(** A message the server delivers without its source. *)
Definition msg9 : FetchMessageObject :=
  {| uid := 9; source := None; msg_flags := None |}.

Definition refuse (what : string) : Js.Thrown := Js.Error what.

Definition make
    (connect : AccountConfig -> Completion unit)
    (fetchOne : N -> Completion (option FetchMessageObject))
    (index : EmailDocument -> Completion unit) : Env :=
  {| OPENAI_API_KEY := Some "sk-test";
     SLACK_WEBHOOK_URL := Some "https://hooks.slack.test/T0";
     EXTERNAL_WEBHOOK_URL := None;
     IMAP_ACCOUNT_1_USER := Some "one@gmail.test";
     IMAP_ACCOUNT_1_PASS := Some "app-password-1";
     IMAP_ACCOUNT_2_HOST := None;
     IMAP_ACCOUNT_2_USER := Some "two@example.test";
     IMAP_ACCOUNT_2_PASS := Some "app-password-2";
     clock := fun n => 1700000000000 + 1000 * Z.of_nat n;
     LocalTZA := fun _ _ => 0;
     imap_connect := connect;
     imap_getMailboxLock := fun _ _ => Returns tt;
     imap_search := fun _ _ _ => Returns (Some [7%N; 9%N]);
     imap_fetchOne := fun _ _ seq => fetchOne seq;
     simpleParser := fun src =>
       if String.eqb src "raw-7" then Returns proposal
       else Throws (refuse "not a message");
     chat_completions_create := fun _ _ _ => Returns [Some interested_json];
     JSON_parse := fun text =>
       if String.eqb text interested_json
       then Returns (Js.JObject [("category", Js.JString "Interested")])
       else Throws (refuse "Unexpected token");
     client_index := fun _ doc => index doc;
     axios_post := fun _ _ => Returns tt |}.

Definition mailbox (seq : N) : Completion (option FetchMessageObject) :=
  if (seq =? 7)%N then Returns (Some msg7)
  else if (seq =? 9)%N then Returns (Some msg9)
  else Returns None.

(** Everything works. *)
Definition env : Env :=
  make (fun _ => Returns tt) mailbox (fun _ => Returns tt).

(** The Document Store rejects every write. *)
Definition env_store_down : Env :=
  make (fun _ => Returns tt) mailbox (fun _ => Throws (refuse "503 Service Unavailable")).

(** The first account cannot connect. *)
Definition env_account_1_down : Env :=
  make (fun config =>
          if String.eqb (cfg_id config) "gmail-account-1"
          then Throws (refuse "ECONNREFUSED") else Returns tt)
       mailbox (fun _ => Returns tt).

(** Fetching message 7 fails. *)
Definition env_fetch_7_down : Env :=
  make (fun _ => Returns tt)
       (fun seq => if (seq =? 7)%N then Throws (refuse "Connection not available")
                   else mailbox seq)
       (fun _ => Returns tt).

(** When each message arrived: 7 forty days before the first reading of
    the clock, 9 one day before. *)
Definition internal_date (seq : N) : Date :=
  if (seq =? 7)%N then 1700000000000 - 40 * Calendar.MS_PER_DAY
  else 1700000000000 - 1 * Calendar.MS_PER_DAY.

(** The two accounts of [ACCOUNT_CONFIGS] in these deployments. *)
Definition account_1 : AccountConfig :=
  {| cfg_id := "gmail-account-1"; host := "imap.gmail.com"; port := 993; secure := true;
     auth := {| user := Some "one@gmail.test"; pass := Some "app-password-1" |} |}.

Definition account_2 : AccountConfig :=
  {| cfg_id := "placeholder-account-2"; host := "imap.example.com"; port := 993;
     secure := true;
     auth := {| user := Some "two@example.test"; pass := Some "app-password-2" |} |}.

(** The document of message 7 at a given time. *)
Definition doc7 (now : Date) : EmailDocument :=
  {| id := "gmail-account-1-7";
     account_id := "gmail-account-1";
     folder := "INBOX";
     message_id := "no-id-7";
     subject := "Re: Proposal";
     body_text := "Sounds good, let us talk.";
     body_html := EmptyString;
     from := "lead@example.com";
     to := "unknown@example.com";
     date := now;
     ai_category := "Interested";
     read := true;
     flags := ["\Seen"] |}.

End Demo.

(** ** The model at work *)

Example iso_date_epoch : Calendar.iso_date 0 = "1970-01-01".
Proof. reflexivity. Qed.

Example iso_date_leap_day : Calendar.iso_date 951782400000 = "2000-02-29".
Proof. reflexivity. Qed.

Example iso_date_thirty_days_before_march :
  Calendar.iso_date (date30DaysAgo Demo.env 1709251200000) = "2024-01-31".
Proof. reflexivity. Qed.

Example toList_flattens_and_joins :
  toList {| p_subject := None; p_text := None; p_html := None; p_textAsHtml := None;
            p_messageId := None; p_from := None;
            p_to := Some (ToMany
                     [ {| value := Some [ {| address := Some "a@example.com"; name := "A" |};
                                          {| address := None; name := "Team" |} ] |};
                       {| value := None |};
                       {| value := Some [ {| address := Some "b@example.com";
                                             name := "B" |} ] |} ]);
            p_date := None |}
  = "a@example.com, b@example.com".
Proof. reflexivity. Qed.

Example toList_without_addresses :
  toList {| p_subject := None; p_text := None; p_html := None; p_textAsHtml := None;
            p_messageId := None; p_from := None;
            p_to := Some (ToOne {| value := Some [ {| address := None; name := "Team" |} ] |});
            p_date := None |}
  = "unknown@example.com".
Proof. reflexivity. Qed.

Example demo_label :
  completion (categorizeEmail Demo.env "Re: Proposal" "Sounds good, let us talk." initial)
  = Returns "Interested".
Proof. vm_compute. reflexivity. Qed.

Example demo_message_7 :
  let r := processAndIndexEmail Demo.env Demo.msg7 "gmail-account-1" "INBOX" initial in
  indexed (events r) = [Demo.doc7 1700000000000]
  /\ notified (events r) = [Demo.doc7 1700000000000]
  /\ es (final r) !! "gmail-account-1-7" = Some (Demo.doc7 1700000000000).
Proof. vm_compute. repeat split; reflexivity. Qed.

Example demo_backfill_criterion :
  backfill_query Demo.env initial = {| since := Some "2023-10-15"; seen := None |}.
Proof. vm_compute. reflexivity. Qed.

Example demo_startSync_registers_both_accounts :
  listeners (final (startSync Demo.env initial))
  = ["gmail-account-1"; "placeholder-account-2"].
Proof. vm_compute. reflexivity. Qed.

Example demo_startSync_after_failed_connect :
  listeners (final (startSync Demo.env_account_1_down initial))
  = ["placeholder-account-2"]
  /\ clients (final (startSync Demo.env_account_1_down initial))
     = ["gmail-account-1"; "placeholder-account-2"].
Proof. vm_compute. split; reflexivity. Qed.

(** ** What a run of the processor shows

    The observations on a message that reaches the classifier: one write
    is attempted, of the document built from the parsed message, and the
    sink is invoked when the label is [Interested]. *)

Lemma processed_observations (env : Env) (msg : FetchMessageObject)
    (accountId folder_ : string) (s : State) (src : Buffer) (parsed : ParsedMail) :
  source msg = Some src ->
  simpleParser env src = Returns parsed ->
  exists c,
    c ∈ VALID_CATEGORIES
    /\ (forall s',
          completion (categorizeEmail env (Js.or_else (p_subject parsed) "(No Subject)")
                        (Js.or_else (Js.or_opt (p_text parsed) (p_html parsed))
                                    EmptyString) s') = Returns c)
    /\ let r := processAndIndexEmail env msg accountId folder_ s in
       let doc := emailDocument msg accountId folder_ parsed c (date_in env parsed s) in
       completion r = Returns tt
       /\ indexed (events r) = [doc]
       /\ notified (events r) = (if String.eqb c "Interested" then [doc] else [])
       /\ final r = final (indexDocument env doc (final (date_or_now env parsed s)))
       /\ (forall e,
             e ∈ events (indexDocument env doc (final (date_or_now env parsed s))) ->
             e ∈ events r).
Proof.
  intros Hsrc Hparse.
  destruct (processAndIndexEmail_processed env msg accountId folder_ s src parsed
              Hsrc Hparse) as (c & evc & evt & Hc & Fc & Ft & Hcat & Hrun).
  exists c. split; [exact Hc|]. split; [intros s'; by rewrite Hcat|].
  cbv zeta in *. rewrite Hrun. simpl completion. simpl final. simpl events.
  set (doc := emailDocument msg accountId folder_ parsed c (date_in env parsed s)) in *.
  destruct (indexDocument_run env doc (final (date_or_now env parsed s)))
    as (si & evi & Hidx & Fi & _).
  assert (Hsub : forall e,
            e ∈ events (indexDocument env doc (final (date_or_now env parsed s))) ->
            e ∈ SimpleParser src
                :: evc ++ events (date_or_now env parsed s)
                   ++ events (indexDocument env doc (final (date_or_now env parsed s)))
                   ++ Console LOG ["[IMAP:" +:+ accountId +:+ "] Indexed: " +:+ Js.dquote
                                   +:+ Js.substring0 40 (subject doc) +:+ "..."
                                   +:+ Js.dquote +:+ " -> Category: " +:+ c]
                      :: (if String.eqb c "Interested"
                          then TriggerInterestedAutomation doc :: evt else [])).
  { intros e He. right. rewrite !elem_of_app. right. right. by left. }
  revert Hsub. rewrite Hidx. simpl. intros Hsub.
  apply of_classifier_quiet in Fc as [Hci Hcn].
  apply of_sink_quiet in Fi as (Hii & Hin & _).
  apply of_sink_quiet in Ft as (Hti & Htn & _).
  assert (Hdi : indexed (events (date_or_now env parsed s)) = []
                /\ notified (events (date_or_now env parsed s)) = []).
  { rewrite date_or_now_run. by destruct (p_date parsed). }
  destruct Hdi as [Hdi Hdn].
  unfold indexed, notified in *.
  split_and!; [reflexivity| | |reflexivity|exact Hsub].
  - rewrite !omap_app, Hci, Hdi. cbn. rewrite omap_app, Hii. cbn.
    destruct (String.eqb c "Interested"); cbn; by rewrite ?Hti.
  - rewrite !omap_app, Hcn, Hdn. cbn. rewrite omap_app, Hin. cbn.
    destruct (String.eqb c "Interested"); cbn; by rewrite ?Htn.
Qed.

(** A stored field that falls back to [dflt]: it is the parsed value when
    there is one (a string that is not empty), and [dflt] otherwise. *)
Definition falls_back (parsed : option string) (dflt stored : string) : Prop :=
  (Js.truthy parsed = true -> parsed = Some stored)
  /\ (Js.truthy parsed = false -> stored = dflt).

Lemma or_else_falls_back (parsed : option string) (dflt : string) :
  falls_back parsed dflt (Js.or_else parsed dflt).
Proof. destruct parsed as [[|a v]|]; split; simpl; done. Qed.

Lemma or_else_not_empty (parsed : option string) (dflt : string) :
  dflt <> EmptyString -> Js.or_else parsed dflt <> EmptyString.
Proof. destruct parsed as [[|a v]|]; simpl; done. Qed.

(** ** The properties as the specification words them

    Four sentences of the specification promise more than the code
    does.  Each is stated here as it is worded, to be refuted on the
    concrete deployment, next to the statement that holds. *)

(** Processing a message a second time leaves the store as the first
    processing left it. *)
Definition reprocessing_is_idempotent (env : Env) (msg : FetchMessageObject)
    (accountId folder_ : string) (s : State) : Prop :=
  let r1 := processAndIndexEmail env msg accountId folder_ s in
  let r2 := processAndIndexEmail env msg accountId folder_ (final r1) in
  es (final r2) = es (final r1).

(** A document the store rejected is not handed to the sink. *)
Definition index_failure_silences_sink (env : Env) (msg : FetchMessageObject)
    (accountId folder_ : string) (s : State) : Prop :=
  let r := processAndIndexEmail env msg accountId folder_ s in
  (forall doc, doc ∈ indexed (events r) ->
               exists e, client_index env (id doc) doc = Throws e) ->
  notified (events r) = [].

(** Backfill fetches only messages dated on or after its lower bound. *)
Definition backfill_fetches_only_in_window (env : Env) (dated : N -> Date)
    (accountId : string) (s : State) : Prop :=
  let r := initialSync env accountId s in
  let lower := date30DaysAgo env (clock env (ticks s)) in
  forall seq, seq ∈ fetched (events r) -> lower <= dated seq.

(** Backfill fetches every UID the search returned, whatever happens to
    the messages before it. *)
Definition backfill_fetches_every_uid (env : Env) (accountId : string) (s : State)
  : Prop :=
  forall res,
    imap_getMailboxLock env accountId "INBOX" = Returns tt ->
    imap_search env accountId "INBOX" (backfill_query env s) = Returns res ->
    fetched (events (initialSync env accountId s)) = array_or_empty res.

(** ** The calendar and the backfill as a whole *)

(** The two conversions between day numbers and calendar dates are
    inverse to each other: the date of a day number is a date of that
    day, and [days_from_civil] finds the first day of a month. *)
Lemma days_from_civil_from_days (days : Z) :
  let '(y, m, d) := Calendar.civil_from_days days in
  1 <= m <= 12 /\ Calendar.days_from_civil y m 1 + d - 1 = days.
Proof.
  unfold Calendar.civil_from_days, Calendar.days_from_civil.
  set (z := days + 719468). set (era := z / 146097). set (doe := z - era * 146097).
  assert (Hdoe : 0 <= doe < 146097).
  { subst doe era. Z.div_mod_to_equations. lia. }
  assert (Hz : days = era * 146097 + doe - 719468) by (subst doe z; lia).
  clearbody doe era. clear z.
  set (yoe := (doe - doe / 1460 + doe / 36524 - doe / 146096) / 365).
  set (doy := doe - (365 * yoe + yoe / 4 - yoe / 100)).
  set (mp := (5 * doy + 2) / 153).
  assert (Hyoe : 0 <= yoe <= 399) by (subst yoe; Z.div_mod_to_equations; lia).
  assert (Hdoy : 0 <= doy <= 365) by (subst doy yoe; Z.div_mod_to_equations; lia).
  assert (Hmp : 0 <= mp <= 11) by (subst mp; Z.div_mod_to_equations; lia).
  assert (Hera : forall k, k = yoe + era * 400 ->
                           k / 400 = era /\ k - k / 400 * 400 = yoe).
  { intros k ->. Z.div_mod_to_equations. lia. }
  destruct (mp <? 10) eqn:Hlt; [apply Z.ltb_lt in Hlt|apply Z.ltb_ge in Hlt].
  - replace (mp + 3 <=? 2) with false by (symmetry; apply Z.leb_gt; lia).
    replace (2 <? mp + 3) with true by (symmetry; apply Z.ltb_lt; lia).
    split; [lia|].
    destruct (Hera (yoe + era * 400 + 0)) as [-> ->]; [lia|].
    replace (mp + 3 - 3) with mp by lia. subst doy. lia.
  - replace (mp - 9 <=? 2) with true by (symmetry; apply Z.leb_le; lia).
    replace (2 <? mp - 9) with false by (symmetry; apply Z.ltb_ge; lia).
    split; [lia|].
    destruct (Hera (yoe + era * 400 + 1 - 1)) as [-> ->]; [lia|].
    replace (mp - 9 + 9) with mp by lia. subst doy. lia.
Qed.

Lemma civil_from_days_from_civil (y m : Z) :
  1 <= m <= 12 ->
  Calendar.civil_from_days (Calendar.days_from_civil y m 1) = (y, m, 1).
Proof.
  intros Hm. unfold Calendar.days_from_civil.
  set (y' := if m <=? 2 then y - 1 else y).
  set (mp := if 2 <? m then m - 3 else m + 9).
  set (era := y' / 400). set (yoe := y' - era * 400).
  assert (Hyoe : 0 <= yoe <= 399) by (subst yoe era; Z.div_mod_to_equations; lia).
  assert (Hmp : 0 <= mp <= 11) by (subst mp; destruct (2 <? m) eqn:H; lia).
  assert (Hy' : y' = yoe + era * 400) by (subst yoe; lia).
  assert (Hm' : m = if mp <? 10 then mp + 3 else mp - 9).
  { subst mp. destruct (2 <? m) eqn:H; [apply Z.ltb_lt in H|apply Z.ltb_ge in H].
    - replace (m - 3 <? 10) with true by (symmetry; apply Z.ltb_lt; lia). lia.
    - replace (m + 9 <? 10) with false by (symmetry; apply Z.ltb_ge; lia). lia. }
  assert (Hy : y = y' + if m <=? 2 then 1 else 0).
  { subst y'. destruct (m <=? 2); lia. }
  clearbody yoe era mp y'.
  set (doe := yoe * 365 + yoe / 4 - yoe / 100 + ((153 * mp + 2) / 5 + 1 - 1)).
  assert (Hdoe : 0 <= doe < 146097) by (subst doe; Z.div_mod_to_equations; lia).
  unfold Calendar.civil_from_days.
  replace (era * 146097 + doe - 719468 + 719468) with (doe + era * 146097) by lia.
  replace ((doe + era * 146097) / 146097) with era by (Z.div_mod_to_equations; lia).
  replace (doe + era * 146097 - era * 146097) with doe by lia.
  set (yoe' := (doe - doe / 1460 + doe / 36524 - doe / 146096) / 365).
  assert (H1 : yoe' = yoe) by (subst yoe' doe; Z.div_mod_to_equations; lia).
  rewrite H1.
  set (doy := doe - (365 * yoe + yoe / 4 - yoe / 100)).
  assert (H2 : (5 * doy + 2) / 153 = mp) by (subst doy doe; Z.div_mod_to_equations; lia).
  rewrite H2. rewrite <- Hm'.
  f_equal; [f_equal; destruct (m <=? 2); lia|]. subst doy doe. lia.
Qed.

(** Setting the day of the month to [getDate() - days] moves the local
    time back by [days] calendar days and keeps the local time of day. *)
Lemma setDate_getDate (tza : Z -> bool -> Z) (t : Date) (days : Z) :
  Calendar.setDate tza t (Calendar.getDate tza t - days)
  = Calendar.UTC tza (Calendar.LocalTime tza t - days * Calendar.MS_PER_DAY).
Proof.
  unfold Calendar.setDate, Calendar.getDate, Calendar.MakeDay, Calendar.MakeDate,
    Calendar.YearFromTime, Calendar.MonthFromTime, Calendar.DateFromTime,
    Calendar.TimeWithinDay.
  set (local := Calendar.LocalTime tza t).
  pose proof (days_from_civil_from_days (Calendar.day_number local)) as H.
  destruct (Calendar.civil_from_days (Calendar.day_number local)) as [[y m] d].
  destruct H as [Hm Hd]. f_equal.
  replace ((m - 1) / 12) with 0 by (Z.div_mod_to_equations; lia).
  replace ((m - 1) mod 12 + 1) with m by (Z.div_mod_to_equations; lia).
  replace (y + 0) with y by lia.
  unfold Calendar.day_number, Calendar.MS_PER_DAY in *.
  Z.div_mod_to_equations. lia.
Qed.

Lemma date30DaysAgo_local (env : Env) (now : Date) :
  date30DaysAgo env now
  = Calendar.UTC (LocalTZA env) (Calendar.LocalTime (LocalTZA env) now - 30 * 86400000).
Proof. unfold date30DaysAgo. apply setDate_getDate. Qed.

Lemma local_day_moves_back (t days : Z) :
  Calendar.day_number (t - days * 86400000) = Calendar.day_number t - days
  /\ Calendar.TimeWithinDay (t - days * 86400000) = Calendar.TimeWithinDay t.
Proof.
  unfold Calendar.day_number, Calendar.TimeWithinDay, Calendar.MS_PER_DAY.
  Z.div_mod_to_equations. lia.
Qed.

(** What a backfill shows once it has the lock and the search result:
    what it fetches is a prefix of the result, the lock is released, and
    when every fetch returns it runs to the end over the whole result. *)
Lemma initialSync_observations (env : Env) (accountId : string) (s : State)
    (res : option (list N)) :
  imap_getMailboxLock env accountId "INBOX" = Returns tt ->
  imap_search env accountId "INBOX" (backfill_query env s) = Returns res ->
  let r := initialSync env accountId s in
  ImapSearch accountId (backfill_query env s) ∈ events r
  /\ LockRelease accountId "INBOX" ∈ events r
  /\ fetched (events r) `prefix_of` array_or_empty res
  /\ ((forall seq, seq ∈ array_or_empty res ->
                   exists m, imap_fetchOne env accountId "INBOX" seq = Returns m) ->
      completion r = Returns tt
      /\ fetched (events r) = array_or_empty res
      /\ parsed_sources (events r)
         = omap (source_at env accountId "INBOX") (array_or_empty res)).
Proof.
  intros Hlock Hsearch r. subst r.
  rewrite (initialSync_run env accountId s res Hlock Hsearch). cbv zeta.
  pose proof (for_of_fetch_prefix env accountId "INBOX" (array_or_empty res)
                (set_ticks S s)) as Hpre.
  pose proof (for_of_fetch_all env accountId "INBOX" (array_or_empty res)
                (set_ticks S s)) as Hall.
  cbv zeta in Hall. unfold fetched, parsed_sources in *.
  remember (for_of (array_or_empty res) (fetch_and_process env accountId "INBOX")
              (set_ticks S s)) as loop eqn:Hloop. clear Hloop.
  cbn [completion final events].
  assert (Hf : forall tail : list Event,
            omap fetch tail = [] ->
            omap fetch
              ([Console LOG ["[IMAP:" +:+ accountId
                             +:+ "] Starting 30-day historical sync..."];
                NewDate; GetMailboxLock accountId "INBOX";
                ImapSearch accountId (backfill_query env s);
                Console LOG ["[IMAP:" +:+ accountId +:+ "] Found "
                             +:+ pretty (length (array_or_empty res))
                             +:+ " emails in the last 30 days."]]
               ++ events loop ++ LockRelease accountId "INBOX" :: tail)
            = omap fetch (events loop)).
  { intros tail Ht. rewrite !omap_app. cbn. rewrite Ht. by rewrite app_nil_r. }
  assert (Hp : forall tail : list Event,
            omap parse tail = [] ->
            omap parse
              ([Console LOG ["[IMAP:" +:+ accountId
                             +:+ "] Starting 30-day historical sync..."];
                NewDate; GetMailboxLock accountId "INBOX";
                ImapSearch accountId (backfill_query env s);
                Console LOG ["[IMAP:" +:+ accountId +:+ "] Found "
                             +:+ pretty (length (array_or_empty res))
                             +:+ " emails in the last 30 days."]]
               ++ events loop ++ LockRelease accountId "INBOX" :: tail)
            = omap parse (events loop)).
  { intros tail Ht. rewrite !omap_app. cbn. rewrite Ht. by rewrite app_nil_r. }
  split_and!.
  - apply elem_of_app. left. do 3 right. by left.
  - rewrite !elem_of_app. right. right. by left.
  - rewrite Hf; [exact Hpre|]. by destruct (completion loop).
  - intros Hret. destruct (Hall Hret) as (Hc & Hfe & Hpa). rewrite Hc.
    rewrite Hf, Hp by done. done.
Qed.

(** A fetch that throws ends the loop at its UID: the UIDs before it
    are fetched and their messages processed, it is the last one fetched,
    and what it throws leaves the loop. *)
Lemma for_of_fetch_stops (env : Env) (accountId path : string) (before after : list N)
    (seq : N) (e : Js.Thrown) (s : State) :
  (forall u, u ∈ before -> exists m, imap_fetchOne env accountId path u = Returns m) ->
  imap_fetchOne env accountId path seq = Throws e ->
  let r := for_of (before ++ seq :: after) (fetch_and_process env accountId path) s in
  completion r = Throws e
  /\ fetched (events r) = before ++ [seq]
  /\ parsed_sources (events r) = omap (source_at env accountId path) before.
Proof.
  intros Hall Hthrow. revert s. induction before as [|u before IH]; intros s.
  - destruct (fetch_and_process_run env accountId path seq s) as (Hc & Hf & Hp & _).
    rewrite Hthrow in Hc. cbv zeta. rewrite app_nil_l.
    rewrite (for_of_throws _ _ _ _ _ Hc). cbn [completion events].
    split; [done|]. split; [exact Hf|]. rewrite Hp. unfold source_at. by rewrite Hthrow.
  - destruct (fetch_and_process_run env accountId path u s) as (Hc & Hf & Hp & _).
    destruct (Hall u) as [m Hm]; [by left|]. rewrite Hm in Hc.
    cbv zeta. rewrite <- app_comm_cons. rewrite (for_of_cons _ _ _ _ Hc). cbv zeta.
    cbn [completion events].
    destruct (IH (fun u' Hu' => Hall u' (proj2 (elem_of_cons _ _ _) (or_intror Hu')))
                 (final (fetch_and_process env accountId path u s)))
      as (IHc & IHf & IHp).
    unfold fetched, parsed_sources in *.
    rewrite !omap_app, Hf, Hp, IHf, IHp. split; [exact IHc|]. split; [done|].
    cbn. destruct (source_at env accountId path u); done.
Qed.

(** The same of a backfill: it ends with what the fetch threw, after
    releasing the lock. *)
Lemma initialSync_stops_at_failed_fetch (env : Env) (accountId : string) (s : State)
    (res : option (list N)) (before after : list N) (seq : N) (e : Js.Thrown) :
  imap_getMailboxLock env accountId "INBOX" = Returns tt ->
  imap_search env accountId "INBOX" (backfill_query env s) = Returns res ->
  array_or_empty res = before ++ seq :: after ->
  (forall u, u ∈ before -> exists m, imap_fetchOne env accountId "INBOX" u = Returns m) ->
  imap_fetchOne env accountId "INBOX" seq = Throws e ->
  let r := initialSync env accountId s in
  completion r = Throws e
  /\ fetched (events r) = before ++ [seq]
  /\ parsed_sources (events r) = omap (source_at env accountId "INBOX") before
  /\ last (events r) = Some (LockRelease accountId "INBOX").
Proof.
  intros Hlock Hsearch Hres Hall Hthrow r. subst r.
  rewrite (initialSync_run env accountId s res Hlock Hsearch). cbv zeta.
  rewrite Hres.
  destruct (for_of_fetch_stops env accountId "INBOX" before after seq e (set_ticks S s)
              Hall Hthrow) as (Hc & Hf & Hp).
  unfold fetched, parsed_sources in *.
  remember (for_of (before ++ seq :: after) (fetch_and_process env accountId "INBOX")
              (set_ticks S s)) as loop eqn:Hloop. clear Hloop.
  cbn [completion final events]. rewrite Hc.
  split_and!.
  - reflexivity.
  - rewrite !omap_app, Hf. cbn. by rewrite app_nil_r.
  - rewrite !omap_app, Hp. cbn. by rewrite app_nil_r.
  - rewrite app_assoc. apply last_snoc.
Qed.

(** ** Accounts one after the other *)

Lemma initialSync_starts (env : Env) (accountId : string) (s : State) :
  exists rest,
    events (initialSync env accountId s)
    = Console LOG ["[IMAP:" +:+ accountId +:+ "] Starting 30-day historical sync..."]
      :: rest.
Proof.
  unfold initialSync.
  rewrite (bind_returns _ _ s s tt
             [Console LOG ["[IMAP:" +:+ accountId
                           +:+ "] Starting 30-day historical sync..."]])
    by reflexivity.
  eexists. reflexivity.
Qed.

(** What the task of one account shows: the connection is attempted; once
    connected the backfill starts; and when the backfill returns the
    handler of live sync is registered. *)
Lemma connectAndSyncAccount_trace (env : Env) (config : AccountConfig) (s : State) :
  let r := connectAndSyncAccount env config s in
  ImapConnect (cfg_id config) ∈ events r
  /\ (imap_connect env config = Returns tt ->
      Console LOG ["[IMAP:" +:+ cfg_id config +:+ "] Starting 30-day historical sync..."]
        ∈ events r
      /\ ((forall s', completion (initialSync env (cfg_id config) s') = Returns tt) ->
          OnExists (cfg_id config) ∈ events r)).
Proof.
  intros r. subst r.
  destruct (imap_connect env config) as [[]|e] eqn:Hconn.
  - rewrite (connectAndSyncAccount_connected env config s Hconn). cbv zeta.
    cbn [events]. split; [by left|]. intros _. split.
    + destruct (initialSync_starts env (cfg_id config)
                  (set_clients (map_set (cfg_id config)) s)) as [rest ->].
      right. right. by left.
    + intros Hret. rewrite Hret. rewrite !elem_of_app. right. right. by left.
  - rewrite (connectAndSyncAccount_connect_fails env config s e Hconn). cbn [events].
    split; [by left|]. intros [=].
Qed.

(** The run over a list of accounts contains the run of the task of each
    configured account in it. *)
Lemma sync_accounts_includes (env : Env) (configs : list AccountConfig) (s : State)
    (other : AccountConfig) :
  other ∈ configs ->
  configured other = true ->
  exists s0, forall e,
      e ∈ events (connectAndSyncAccount env other s0) ->
      e ∈ events (sync_accounts env configs s).
Proof.
  revert s. induction configs as [|c configs IH]; intros s Hin Hconf.
  { by apply not_elem_of_nil in Hin. }
  rewrite sync_accounts_cons. cbv zeta. cbn [events].
  apply elem_of_cons in Hin as [->|Hin].
  - exists s. intros e He. apply elem_of_app. left.
    unfold sync_account. by rewrite Hconf.
  - destruct (IH (final (sync_account env c s)) Hin Hconf) as [s0 Hs0].
    exists s0. intros e He. apply elem_of_app. right. by apply Hs0.
Qed.

(** ** Properties of the pipeline *)

(** *** Classification *)

(** C2.  For every input the classifier returns one of the six labels and
    never throws; with no API key, when the call to the oracle throws, when
    the response is empty, and when the label of the response is outside
    the six, the label is [Uncategorized]. *)
Theorem categorizeEmail_always_labels (env : Env) (subj body : string) (s : State) :
  let r := categorizeEmail env subj body s in
  length VALID_CATEGORIES = 6%nat
  /\ (exists c, completion r = Returns c /\ c ∈ VALID_CATEGORIES)
  /\ (Js.truthy (OPENAI_API_KEY env) = false ->
      r = mkRun (Returns "Uncategorized") s [])
  /\ (forall e,
        (forall sys usr, chat_completions_create env model sys usr = Throws e) ->
        completion r = Returns "Uncategorized")
  /\ (forall content rest,
        (forall sys usr, chat_completions_create env model sys usr
                         = Returns (content :: rest)) ->
        Js.truthy content = false ->
        completion r = Returns "Uncategorized")
  /\ (forall raw rest e,
        (forall sys usr, chat_completions_create env model sys usr
                         = Returns (Some raw :: rest)) ->
        JSON_parse env raw = Throws e ->
        completion r = Returns "Uncategorized")
  /\ (forall raw rest fields label,
        (forall sys usr, chat_completions_create env model sys usr
                         = Returns (Some raw :: rest)) ->
        JSON_parse env raw = Returns (Js.JObject fields) ->
        Js.assoc "category" fields = Some (Js.JString label) ->
        label ∉ VALID_CATEGORIES ->
        completion r = Returns "Uncategorized").
Proof.
  intros r. split; [reflexivity|]. split.
  { destruct (categorizeEmail_run env subj body) as (c & evs & Hrun & Hc & _).
    exists c. subst r. by rewrite Hrun. }
  subst r. unfold categorizeEmail.
  destruct (Js.truthy (OPENAI_API_KEY env)); simpl.
  2: { repeat split; done. }
  split; [done|].
  unfold try_catch, bind, emit, lift, console_warn, console_error, ret; simpl.
  repeat split.
  - intros e H. by rewrite H.
  - intros content rest H Hc. rewrite H. simpl. rewrite Hc. by simpl.
  - intros raw rest e H Hp. rewrite H. simpl.
    destruct (Js.truthy_string raw); simpl; [|done].
    change (non_null (Some raw)) with raw. rewrite Hp. by simpl.
  - intros raw rest fields label H Hp Hcat Hout. rewrite H. simpl.
    destruct (Js.truthy_string raw); simpl; [|done].
    change (non_null (Some raw)) with raw. rewrite Hp. simpl.
    rewrite Hcat. unfold valid_category.
    destruct (Js.includes VALID_CATEGORIES label) eqn:Hin.
    { apply includes_iff in Hin. contradiction. }
    rewrite andb_false_r. by simpl.
Qed.

(** *** Message processing *)

(** When the label is [Interested] the processing ends with the whole
    run of the sink on the document, after the write to the store. *)
Lemma interested_runs_the_sink (env : Env) (msg : FetchMessageObject)
    (accountId folder_ : string) (s : State) (src : Buffer) (parsed : ParsedMail) :
  source msg = Some src ->
  simpleParser env src = Returns parsed ->
  (forall s',
     completion (categorizeEmail env (Js.or_else (p_subject parsed) "(No Subject)")
                   (Js.or_else (Js.or_opt (p_text parsed) (p_html parsed)) EmptyString) s')
     = Returns "Interested") ->
  let r := processAndIndexEmail env msg accountId folder_ s in
  let doc := emailDocument msg accountId folder_ parsed "Interested"
                           (date_in env parsed s) in
  exists before,
    events r = before ++ events (triggerInterestedAutomation env doc (final r))
    /\ EsIndex INDEX_NAME (id doc) doc ∈ before
    /\ notified before = [].
Proof.
  intros Hsrc Hparse Hlabel r doc. subst r.
  destruct (processAndIndexEmail_processed env msg accountId folder_ s src parsed
              Hsrc Hparse) as (c & evc & evt & Hc & Fc & Ft & Hcat & Hrun).
  assert (c = "Interested") as ->.
  { specialize (Hlabel s). rewrite Hcat in Hlabel. by injection Hlabel. }
  cbv zeta in Hrun. fold doc in Hrun. rewrite Hrun. cbn [events final].
  destruct (indexDocument_run env doc (final (date_or_now env parsed s)))
    as (si & evi & Hidx & Fi & _).
  rewrite Hidx. cbn [events final].
  destruct (triggerInterestedAutomation_run env doc si) as (evt' & Htrig & _).
  rewrite Htrig. cbn [events].
  assert (Hsame : evt' = evt).
  { revert Hrun. unfold processAndIndexEmail. rewrite Hsrc.
    unfold try_catch, bind, emit, lift, console_log. simpl.
    rewrite Hparse, Hcat.
    assert (Hd : date_or_now env parsed s
                 = mkRun (Returns (date_in env parsed s))
                         (final (date_or_now env parsed s))
                         (events (date_or_now env parsed s))).
    { rewrite date_or_now_run. unfold date_in. by destruct (p_date parsed). }
    rewrite Hd. simpl. fold doc. rewrite Hidx. simpl. rewrite Htrig. simpl.
    intros [= H]. apply app_inv_head in H. apply app_inv_head in H.
    injection H as H. apply app_inv_head in H. by injection H. }
  subst evt'.
  exists ([SimpleParser src] ++ evc ++ events (date_or_now env parsed s)
          ++ (EsIndex INDEX_NAME (id doc) doc :: evi)
          ++ [Console LOG ["[IMAP:" +:+ accountId +:+ "] Indexed: " +:+ Js.dquote
                           +:+ Js.substring0 40 (subject doc) +:+ "..." +:+ Js.dquote
                           +:+ " -> Category: " +:+ "Interested"]]).
  split_and!.
  - rewrite <- !app_assoc. reflexivity.
  - rewrite !elem_of_app. right. right. right. left. by left.
  - apply of_classifier_quiet in Fc as [_ Hcn].
    apply of_sink_quiet in Fi as (_ & Hin & _).
    assert (Hdn : notified (events (date_or_now env parsed s)) = []).
    { rewrite date_or_now_run. by destruct (p_date parsed). }
    unfold notified in *. rewrite !omap_app, Hcn, Hdn. cbn. by rewrite Hin.
Qed.

(** C4.  The sink is invoked if and only if the label is [Interested].
    A message whose source is absent or rejected by the parser notifies
    nothing.  Every other message gets the label the classifier returns
    for its subject and body, one of the six; one document is built with
    that label and sent to the store.  When the label is [Interested] the
    sink is invoked exactly once, with that document: the processing ends
    with the whole run of the sink, after the write to the store.  For
    each of the other five labels the sink is not invoked at all. *)
Theorem automation_fires_iff_interested (env : Env) (msg : FetchMessageObject)
    (accountId folder_ : string) (s : State) :
  let r := processAndIndexEmail env msg accountId folder_ s in
  match source msg with
  | None => indexed (events r) = [] /\ notified (events r) = []
  | Some src =>
      match simpleParser env src with
      | Throws _ => indexed (events r) = [] /\ notified (events r) = []
      | Returns parsed =>
          exists label,
            label ∈ VALID_CATEGORIES
            /\ (forall s',
                  completion
                    (categorizeEmail env (Js.or_else (p_subject parsed) "(No Subject)")
                       (Js.or_else (Js.or_opt (p_text parsed) (p_html parsed))
                                   EmptyString) s')
                  = Returns label)
            /\ let doc := emailDocument msg accountId folder_ parsed label
                                        (date_in env parsed s) in
               ai_category doc = label
               /\ indexed (events r) = [doc]
               /\ notified (events r) = (if String.eqb label "Interested" then [doc] else [])
               /\ (label = "Interested" ->
                   notified (events r) = [doc]
                   /\ exists before,
                        events r
                        = before ++ events (triggerInterestedAutomation env doc (final r))
                        /\ EsIndex INDEX_NAME (id doc) doc ∈ before
                        /\ notified before = [])
               /\ (label <> "Interested" -> notified (events r) = [])
      end
  end
  /\ (length (indexed (events r)) <= 1)%nat
  /\ (indexed (events r) = [] -> notified (events r) = [])
  /\ (forall doc, doc ∈ indexed (events r) ->
        ai_category doc ∈ VALID_CATEGORIES
        /\ (ai_category doc = "Interested" -> notified (events r) = [doc])
        /\ (ai_category doc <> "Interested" -> notified (events r) = [])
        /\ (doc ∈ notified (events r) <-> ai_category doc = "Interested")).
Proof.
  intros r. subst r.
  destruct (source msg) as [src|] eqn:Hsrc.
  - destruct (simpleParser env src) as [parsed|e] eqn:Hparse.
    + destruct (processed_observations env msg accountId folder_ s src parsed
                  Hsrc Hparse) as (c & Hc & Hcat & _ & Hi & Hn & _ & _).
      rewrite Hi, Hn. split.
      { exists c. split; [exact Hc|]. split; [exact Hcat|]. cbv zeta.
        split; [reflexivity|]. split; [reflexivity|]. split; [reflexivity|]. split.
        - intros ->. split; [reflexivity|].
          exact (interested_runs_the_sink env msg accountId folder_ s src parsed
                   Hsrc Hparse Hcat).
        - intros Hne. apply String.eqb_neq in Hne. by rewrite Hne. }
      split; [simpl; lia|]. split; [discriminate|].
      intros doc Hdoc. apply list_elem_of_singleton in Hdoc. subst doc. simpl.
      split; [exact Hc|].
      destruct (String.eqb c "Interested") eqn:Heq.
      * apply String.eqb_eq in Heq. repeat split; try done.
        intros _. by apply list_elem_of_singleton.
      * apply String.eqb_neq in Heq. repeat split; try done.
        intros H. by apply not_elem_of_nil in H.
    + rewrite (processAndIndexEmail_unparseable env msg accountId folder_ s src e
                 Hsrc Hparse). simpl.
      split; [done|].
      split; [cbn; lia|]. split; [done|]. intros doc H. by apply not_elem_of_nil in H.
  - rewrite (processAndIndexEmail_no_source env msg accountId folder_ s Hsrc). simpl.
    split; [done|].
    split; [cbn; lia|]. split; [done|]. intros doc H. by apply not_elem_of_nil in H.
Qed.

(** C5.  A message whose source is absent, or whose source the parser
    rejects, is skipped: the processor returns, leaves the store and the
    rest of the state as they were, writes no document, calls no oracle,
    notifies nothing, and ends with a warning or an error on the console. *)
Theorem unreadable_message_is_skipped (env : Env) (msg : FetchMessageObject)
    (accountId folder_ : string) (s : State) :
  source msg = None
  \/ (exists src e, source msg = Some src /\ simpleParser env src = Throws e) ->
  let r := processAndIndexEmail env msg accountId folder_ s in
  completion r = Returns tt
  /\ final r = s
  /\ indexed (events r) = []
  /\ classified (events r) = []
  /\ notified (events r) = []
  /\ exists level args, last (events r) = Some (Console level args) /\ level <> LOG.
Proof.
  intros [Hsrc|(src & e & Hsrc & Hparse)] r; subst r.
  - rewrite (processAndIndexEmail_no_source env msg accountId folder_ s Hsrc). simpl.
    repeat split. eexists _, _. split; [reflexivity|discriminate].
  - rewrite (processAndIndexEmail_unparseable env msg accountId folder_ s src e
               Hsrc Hparse). simpl.
    repeat split. eexists _, _. split; [reflexivity|discriminate].
Qed.

(** Message 9 of the demo mailbox comes without its source. *)
Lemma unreadable_message_is_skipped_witness :
  let r := processAndIndexEmail Demo.env Demo.msg9 "gmail-account-1" "INBOX" initial in
  completion r = Returns tt
  /\ final r = initial
  /\ indexed (events r) = []
  /\ classified (events r) = []
  /\ notified (events r) = []
  /\ exists level args, last (events r) = Some (Console level args) /\ level <> LOG.
Proof.
  apply (unreadable_message_is_skipped Demo.env Demo.msg9 "gmail-account-1" "INBOX"
           initial).
  left. reflexivity.
Defined.

(** C10.  Every document the processor sends to the store is fully
    populated from the parsed message, with a fixed fallback for each
    missing value: [(No Subject)], [unknown@example.com] for sender and
    recipients, [no-id-{uid}], empty bodies (the HTML body falls back to
    the text rendered as HTML first), the reading of the clock for the
    date, no flags and unread when the flags are absent, and read exactly
    when [\Seen] is among the flags.  The identifying fields and the
    fields with a non-empty fallback are never empty. *)
Theorem stored_document_is_populated (env : Env) (msg : FetchMessageObject)
    (accountId folder_ : string) (s : State) (doc : EmailDocument) :
  doc ∈ indexed (events (processAndIndexEmail env msg accountId folder_ s)) ->
  exists src parsed,
    source msg = Some src /\ simpleParser env src = Returns parsed
    /\ id doc = accountId +:+ "-" +:+ pretty (uid msg)
    /\ account_id doc = accountId
    /\ folder doc = folder_
    /\ falls_back (p_subject parsed) "(No Subject)" (subject doc)
    /\ falls_back (first_address (p_from parsed)) "unknown@example.com" (from doc)
    /\ (p_to parsed = None -> to doc = "unknown@example.com")
    /\ falls_back (p_messageId parsed) ("no-id-" +:+ pretty (uid msg)) (message_id doc)
    /\ falls_back (p_text parsed) EmptyString (body_text doc)
    /\ falls_back (Js.or_opt (p_html parsed) (p_textAsHtml parsed)) EmptyString
                  (body_html doc)
    /\ date doc = match p_date parsed with
                  | Some d => d
                  | None => clock env (ticks s)
                  end
    /\ match msg_flags msg with
       | Some fl => flags doc = fl /\ (read doc = true <-> "\Seen" ∈ fl)
       | None => flags doc = [] /\ read doc = false
       end
    /\ ai_category doc ∈ VALID_CATEGORIES
    /\ subject doc <> EmptyString /\ from doc <> EmptyString
    /\ to doc <> EmptyString /\ message_id doc <> EmptyString.
Proof.
  intros Hdoc.
  destruct (source msg) as [src|] eqn:Hsrc.
  2: { rewrite (processAndIndexEmail_no_source env msg accountId folder_ s Hsrc) in Hdoc.
       by apply not_elem_of_nil in Hdoc. }
  destruct (simpleParser env src) as [parsed|e] eqn:Hparse.
  2: { rewrite (processAndIndexEmail_unparseable env msg accountId folder_ s src e
                  Hsrc Hparse) in Hdoc. by apply not_elem_of_nil in Hdoc. }
  destruct (processed_observations env msg accountId folder_ s src parsed Hsrc Hparse)
    as (c & Hc & _ & _ & Hi & _ & _ & _).
  rewrite Hi in Hdoc. apply list_elem_of_singleton in Hdoc. subst doc.
  exists src, parsed. simpl.
  split_and!;
    try first [ reflexivity | assumption | apply or_else_falls_back
              | by apply or_else_not_empty ].
  - unfold toList. by intros ->.
  - unfold is_read, array_from. destruct (msg_flags msg) as [fl|]; [|done].
    split; [done|]. apply includes_iff.
  - unfold toList. destruct (p_to parsed); [|done]. by apply or_else_not_empty.
Qed.

(** The document of message 7, stored at the first reading of the clock. *)
Lemma stored_document_is_populated_witness :
  exists src parsed,
    source Demo.msg7 = Some src /\ simpleParser Demo.env src = Returns parsed
    /\ id (Demo.doc7 1700000000000) = "gmail-account-1" +:+ "-" +:+ pretty (uid Demo.msg7)
    /\ account_id (Demo.doc7 1700000000000) = "gmail-account-1"
    /\ folder (Demo.doc7 1700000000000) = "INBOX"
    /\ falls_back (p_subject parsed) "(No Subject)" (subject (Demo.doc7 1700000000000))
    /\ falls_back (first_address (p_from parsed)) "unknown@example.com"
                  (from (Demo.doc7 1700000000000))
    /\ (p_to parsed = None -> to (Demo.doc7 1700000000000) = "unknown@example.com")
    /\ falls_back (p_messageId parsed) ("no-id-" +:+ pretty (uid Demo.msg7))
                  (message_id (Demo.doc7 1700000000000))
    /\ falls_back (p_text parsed) EmptyString (body_text (Demo.doc7 1700000000000))
    /\ falls_back (Js.or_opt (p_html parsed) (p_textAsHtml parsed)) EmptyString
                  (body_html (Demo.doc7 1700000000000))
    /\ date (Demo.doc7 1700000000000) = match p_date parsed with
                                        | Some d => d
                                        | None => clock Demo.env (ticks initial)
                                        end
    /\ match msg_flags Demo.msg7 with
       | Some fl => flags (Demo.doc7 1700000000000) = fl
                    /\ (read (Demo.doc7 1700000000000) = true <-> "\Seen" ∈ fl)
       | None => flags (Demo.doc7 1700000000000) = []
                 /\ read (Demo.doc7 1700000000000) = false
       end
    /\ ai_category (Demo.doc7 1700000000000) ∈ VALID_CATEGORIES
    /\ subject (Demo.doc7 1700000000000) <> EmptyString
    /\ from (Demo.doc7 1700000000000) <> EmptyString
    /\ to (Demo.doc7 1700000000000) <> EmptyString
    /\ message_id (Demo.doc7 1700000000000) <> EmptyString.
Proof.
  apply (stored_document_is_populated Demo.env Demo.msg7 "gmail-account-1" "INBOX"
           initial (Demo.doc7 1700000000000)).
  vm_compute. left.
Defined.

(** *** Storage *)

(** C1, as worded, fails: a message without a date is stored with the
    reading of the clock, so a second processing replaces the document by
    one with a later date. *)
Lemma reprocessing_moves_the_date :
  let r1 := processAndIndexEmail Demo.env Demo.msg7 "gmail-account-1" "INBOX" initial in
  let r2 := processAndIndexEmail Demo.env Demo.msg7 "gmail-account-1" "INBOX" (final r1) in
  es (final r1) !! "gmail-account-1-7" = Some (Demo.doc7 1700000000000)
  /\ es (final r2) !! "gmail-account-1-7" = Some (Demo.doc7 1700000001000)
  /\ ~ reprocessing_is_idempotent Demo.env Demo.msg7 "gmail-account-1" "INBOX" initial.
Proof.
  assert (H1 : es (final (processAndIndexEmail Demo.env Demo.msg7 "gmail-account-1"
                            "INBOX" initial)) !! "gmail-account-1-7"
               = Some (Demo.doc7 1700000000000)) by (vm_compute; reflexivity).
  assert (H2 : es (final (processAndIndexEmail Demo.env Demo.msg7 "gmail-account-1"
                            "INBOX"
                            (final (processAndIndexEmail Demo.env Demo.msg7
                                      "gmail-account-1" "INBOX" initial))))
                 !! "gmail-account-1-7"
               = Some (Demo.doc7 1700000001000)) by (vm_compute; reflexivity).
  cbv zeta. split; [exact H1|]. split; [exact H2|].
  unfold reprocessing_is_idempotent. cbv zeta. intros H.
  rewrite H in H2. rewrite H1 in H2. discriminate H2.
Qed.

(** C1, amended.  When the message is parsed and the store accepts the
    write, the document is stored under [{accountId}-{uid}], its own id;
    a second processing writes under the same id, so the store holds one
    document for the message, with the same ids as after the first.  The
    second document equals the first in every field but [date]; with a
    parsed date it is the same document and the store is unchanged, and
    without one each document carries the reading of the clock of its
    processing. *)
Theorem reprocessing_keeps_one_document (env : Env) (msg : FetchMessageObject)
    (accountId folder_ : string) (s : State) (src : Buffer) (parsed : ParsedMail) :
  source msg = Some src ->
  simpleParser env src = Returns parsed ->
  (forall doc, client_index env (accountId +:+ "-" +:+ pretty (uid msg)) doc
               = Returns tt) ->
  let key := accountId +:+ "-" +:+ pretty (uid msg) in
  let r1 := processAndIndexEmail env msg accountId folder_ s in
  let r2 := processAndIndexEmail env msg accountId folder_ (final r1) in
  exists doc1 doc2,
    indexed (events r1) = [doc1] /\ indexed (events r2) = [doc2]
    /\ id doc1 = key /\ id doc2 = key
    /\ es (final r1) = <[key := doc1]> (es s)
    /\ es (final r2) = <[key := doc2]> (es s)
    /\ dom (es (final r2)) = dom (es (final r1))
    /\ doc2 = with_date (date doc2) doc1
    /\ match p_date parsed with
       | Some d => date doc1 = d /\ doc2 = doc1 /\ es (final r2) = es (final r1)
       | None => date doc1 = clock env (ticks s)
                 /\ date doc2 = clock env (S (ticks s))
       end.
Proof.
  intros Hsrc Hparse Hok key r1 r2.
  destruct (processed_observations env msg accountId folder_ s src parsed Hsrc Hparse)
    as (c & _ & Hcat & _ & Hi1 & _ & Hf1 & _).
  fold r1 in Hi1, Hf1.
  destruct (processed_observations env msg accountId folder_ (final r1) src parsed
              Hsrc Hparse) as (c' & _ & Hcat' & _ & Hi2 & _ & Hf2 & _).
  fold r2 in Hi2, Hf2.
  assert (c' = c) as ->.
  { specialize (Hcat s). specialize (Hcat' s). congruence. }
  set (doc1 := emailDocument msg accountId folder_ parsed c (date_in env parsed s)) in *.
  set (doc2 := emailDocument msg accountId folder_ parsed c
                 (date_in env parsed (final r1))) in *.
  rewrite (indexDocument_accepted env doc1 _ (Hok doc1)) in Hf1.
  rewrite (indexDocument_accepted env doc2 _ (Hok doc2)) in Hf2.
  simpl in Hf1, Hf2. change (id doc1) with key in Hf1. change (id doc2) with key in Hf2.
  assert (He1 : es (final r1) = <[key := doc1]> (es s)).
  { rewrite Hf1. rewrite date_or_now_run. by destruct (p_date parsed). }
  assert (He2 : es (final r2) = <[key := doc2]> (es s)).
  { rewrite Hf2. rewrite date_or_now_run.
    destruct (p_date parsed); simpl; rewrite He1; apply insert_insert_eq. }
  assert (Ht1 : ticks (final r1) = match p_date parsed with
                                   | Some _ => ticks s
                                   | None => S (ticks s)
                                   end).
  { rewrite Hf1. rewrite date_or_now_run. by destruct (p_date parsed). }
  exists doc1, doc2. split_and!; try done.
  - rewrite He1, He2. rewrite !dom_insert_L. reflexivity.
  - subst doc1 doc2. unfold date_in. rewrite Ht1.
    destruct (p_date parsed) as [d|] eqn:Hd; simpl; [|done].
    split; [done|]. split; [done|]. rewrite He1, He2. unfold date_in. by rewrite Hd.
Qed.

(** Message 7 of the demo mailbox, processed twice. *)
Lemma reprocessing_keeps_one_document_witness :
  let key := "gmail-account-1" +:+ "-" +:+ pretty (uid Demo.msg7) in
  let r1 := processAndIndexEmail Demo.env Demo.msg7 "gmail-account-1" "INBOX" initial in
  let r2 := processAndIndexEmail Demo.env Demo.msg7 "gmail-account-1" "INBOX" (final r1) in
  exists doc1 doc2,
    indexed (events r1) = [doc1] /\ indexed (events r2) = [doc2]
    /\ id doc1 = key /\ id doc2 = key
    /\ es (final r1) = <[key := doc1]> (es initial)
    /\ es (final r2) = <[key := doc2]> (es initial)
    /\ dom (es (final r2)) = dom (es (final r1))
    /\ doc2 = with_date (date doc2) doc1
    /\ match p_date Demo.proposal with
       | Some d => date doc1 = d /\ doc2 = doc1 /\ es (final r2) = es (final r1)
       | None => date doc1 = clock Demo.env (ticks initial)
                 /\ date doc2 = clock Demo.env (S (ticks initial))
       end.
Proof.
  apply (reprocessing_keeps_one_document Demo.env Demo.msg7 "gmail-account-1" "INBOX"
           initial "raw-7" Demo.proposal).
  - reflexivity.
  - reflexivity.
  - intros doc. reflexivity.
Defined.

(** C3, as worded, fails: the store service catches the rejected write
    itself, so the processor goes on and hands the document to the sink. *)
Lemma failed_index_still_notifies :
  let r := processAndIndexEmail Demo.env_store_down Demo.msg7 "gmail-account-1" "INBOX"
                                initial in
  indexed (events r) = [Demo.doc7 1700000000000]
  /\ client_index Demo.env_store_down "gmail-account-1-7" (Demo.doc7 1700000000000)
     = Throws (Js.Error "503 Service Unavailable")
  /\ es (final r) !! "gmail-account-1-7" = None
  /\ notified (events r) = [Demo.doc7 1700000000000]
  /\ ~ index_failure_silences_sink Demo.env_store_down Demo.msg7 "gmail-account-1"
         "INBOX" initial.
Proof.
  assert (Hi : indexed (events (processAndIndexEmail Demo.env_store_down Demo.msg7
                                  "gmail-account-1" "INBOX" initial))
               = [Demo.doc7 1700000000000]) by (vm_compute; reflexivity).
  assert (Hn : notified (events (processAndIndexEmail Demo.env_store_down Demo.msg7
                                   "gmail-account-1" "INBOX" initial))
               = [Demo.doc7 1700000000000]) by (vm_compute; reflexivity).
  cbv zeta. split; [exact Hi|]. split; [reflexivity|].
  split; [vm_compute; reflexivity|]. split; [exact Hn|].
  unfold index_failure_silences_sink. cbv zeta. rewrite Hi, Hn. intros H.
  discriminate H. intros doc _. eexists. reflexivity.
Qed.

(** C3, amended.  When the store rejects the write of a parsed message,
    the store service logs the failure, no exception escapes the
    processor, and the store is unchanged; the processor then goes on as
    after a successful write: the sink is invoked with the document
    exactly when its label is [Interested]. *)
Theorem index_failure_is_logged_and_not_fatal (env : Env) (msg : FetchMessageObject)
    (accountId folder_ : string) (s : State) (src : Buffer) (parsed : ParsedMail)
    (e : Js.Thrown) :
  source msg = Some src ->
  simpleParser env src = Returns parsed ->
  (forall doc, client_index env (accountId +:+ "-" +:+ pretty (uid msg)) doc
               = Throws e) ->
  let r := processAndIndexEmail env msg accountId folder_ s in
  exists doc,
    indexed (events r) = [doc]
    /\ completion r = Returns tt
    /\ es (final r) = es s
    /\ Console ERROR ["[Elasticsearch] Failed to index email ID " +:+ id doc +:+ ":";
                      Js.message_or_string e] ∈ events r
    /\ notified (events r)
       = (if String.eqb (ai_category doc) "Interested" then [doc] else []).
Proof.
  intros Hsrc Hparse Hdown r.
  destruct (processed_observations env msg accountId folder_ s src parsed Hsrc Hparse)
    as (c & _ & _ & Hret & Hi & Hn & Hf & Hsub).
  fold r in Hret, Hi, Hn, Hf, Hsub.
  set (doc := emailDocument msg accountId folder_ parsed c (date_in env parsed s)) in *.
  rewrite (indexDocument_rejected env doc _ e (Hdown doc)) in Hf, Hsub.
  exists doc. split_and!; try done.
  - rewrite Hf. simpl. rewrite date_or_now_run. by destruct (p_date parsed).
  - apply Hsub. simpl. right. by left.
Qed.

(** Message 7 of the demo mailbox while the store is down. *)
Lemma index_failure_is_logged_and_not_fatal_witness :
  let r := processAndIndexEmail Demo.env_store_down Demo.msg7 "gmail-account-1" "INBOX"
                                initial in
  exists doc,
    indexed (events r) = [doc]
    /\ completion r = Returns tt
    /\ es (final r) = es initial
    /\ Console ERROR ["[Elasticsearch] Failed to index email ID " +:+ id doc +:+ ":";
                      Js.message_or_string (Js.Error "503 Service Unavailable")]
         ∈ events r
    /\ notified (events r)
       = (if String.eqb (ai_category doc) "Interested" then [doc] else []).
Proof.
  apply (index_failure_is_logged_and_not_fatal Demo.env_store_down Demo.msg7
           "gmail-account-1" "INBOX" initial "raw-7" Demo.proposal
           (Js.Error "503 Service Unavailable")).
  - reflexivity.
  - reflexivity.
  - intros doc. reflexivity.
Defined.

(** *** Live sync *)

(** C7.  When the handler of a notification has the mailbox lock and its
    search for unseen messages returns, it returns without throwing and
    issues that one search.  If the search found UIDs, exactly one fetch
    is issued, of the last UID, and the message that fetch returns, and no
    other, is handed to the processor before the lock is released; if it
    found none, nothing is fetched, parsed, classified, stored or notified. *)
Theorem live_sync_takes_last_unseen (env : Env) (accountId path : string) (count : N)
    (s : State) (res : option (list N)) :
  imap_getMailboxLock env accountId path = Returns tt ->
  imap_search env accountId path unseen_query = Returns res ->
  let r := exists_handler env accountId path count s in
  completion r = Returns tt
  /\ ImapSearch accountId {| since := None; seen := Some false |} ∈ events r
  /\ match last (array_or_empty res) with
     | Some latestUid =>
         fetched (events r) = [latestUid]
         /\ parsed_sources (events r) = option_list (source_at env accountId path latestUid)
         /\ forall m, imap_fetchOne env accountId path latestUid = Returns (Some m) ->
              exists before,
                events r = before ++ [ImapFetchOne accountId latestUid]
                           ++ events (processAndIndexEmail env m accountId path s)
                           ++ [LockRelease accountId path]
                /\ Forall (fun e => fetch e = None /\ parse e = None
                                    /\ store_write e = None /\ oracle_call e = None
                                    /\ notification e = None) before
     | None =>
         fetched (events r) = [] /\ parsed_sources (events r) = []
         /\ classified (events r) = [] /\ indexed (events r) = []
         /\ notified (events r) = []
     end.
Proof.
  intros Hlock Hsearch r. subst r.
  rewrite (exists_handler_run env accountId path count s res Hlock Hsearch). cbv zeta.
  destruct (last (array_or_empty res)) as [u|].
  2: { cbn. split; [done|]. split; [|done]. right. right. by left. }
  destruct (fetch_and_process_run env accountId path u s) as (Hc & Hf & Hp & Hev).
  cbv zeta in *. unfold fetched, parsed_sources in *.
  remember (fetch_and_process env accountId path u s) as fp eqn:Hfp. clear Hfp.
  cbn [completion final events].
  split; [done|]. split; [right; right; by left|].
  split_and!.
  - cbn. rewrite omap_app, Hf. by destruct (completion fp).
  - cbn. rewrite omap_app, Hp. destruct (completion fp); cbn; by rewrite app_nil_r.
  - intros m Hm. rewrite Hm in Hc. rewrite Hc, Hev, Hm.
    exists [Console LOG ["[IMAP:" +:+ accountId +:+ " - IDLE] New message detected in "
                         +:+ path +:+ ". Total count: " +:+ pretty count];
            GetMailboxLock accountId path; ImapSearch accountId unseen_query;
            Console LOG ["[IMAP:" +:+ accountId
                         +:+ " - IDLE] Fetching new message with UID: " +:+ pretty u]].
    split; [reflexivity|]. repeat constructor.
Qed.

(** A notification on the demo mailbox, where 7 and 9 are unseen. *)
Lemma live_sync_takes_last_unseen_witness :
  let r := exists_handler Demo.env "gmail-account-1" "INBOX" 2 initial in
  completion r = Returns tt /\ fetched (events r) = [9%N].
Proof.
  destruct (live_sync_takes_last_unseen Demo.env "gmail-account-1" "INBOX" 2 initial
              (Some [7%N; 9%N]) eq_refl eq_refl) as (Hc & _ & Hf & _).
  split; [exact Hc|exact Hf].
Defined.

(** *** Backfill *)

(** C8, as worded, fails: the backfill fetches every UID the search
    returns and never looks at a date itself, so a search that returns a
    message from outside the window has it fetched. *)
Lemma backfill_fetches_out_of_window :
  let r := initialSync Demo.env "gmail-account-1" initial in
  let lower := date30DaysAgo Demo.env (clock Demo.env (ticks initial)) in
  fetched (events r) = [7%N; 9%N]
  /\ Demo.internal_date 7 < lower
  /\ lower <= Demo.internal_date 9
  /\ ~ backfill_fetches_only_in_window Demo.env Demo.internal_date "gmail-account-1"
         initial.
Proof.
  assert (Hf : fetched (events (initialSync Demo.env "gmail-account-1" initial))
               = [7%N; 9%N]) by (vm_compute; reflexivity).
  cbv zeta. split; [exact Hf|]. split; [by vm_compute|]. split; [by vm_compute|].
  unfold backfill_fetches_only_in_window. cbv zeta. rewrite Hf. intros H.
  specialize (H 7%N). revert H. vm_compute. intros H. apply H; [|reflexivity].
  by left.
Qed.

(** New York in 2024: four hours behind UTC from 10 March, 07:00 UTC, to
    3 November, 06:00 UTC, and five hours otherwise.  A local time that
    the clocks skip or show twice is read with the offset in force before
    the change. *)
Definition new_york_2024 (t : Z) (isUTC : bool) : Z :=
  if isUTC
  then if (1710054000000 <=? t) && (t <? 1730613600000) then -14400000 else -18000000
  else if (1710039600000 <=? t) && (t <? 1730599200000) then -14400000 else -18000000.

(** On 24 March 2024 at 19:30 in New York (23:30 UTC) the thirtieth day
    before is 23 February, 19:30 in New York, which is 24 February in
    UTC; thirty times 24 hours before is still 23 February in UTC. *)
Example date30DaysAgo_across_daylight_saving :
  Calendar.getDate new_york_2024 1711323000000 = 24
  /\ Calendar.iso_date
       (Calendar.setDate new_york_2024 1711323000000
          (Calendar.getDate new_york_2024 1711323000000 - 30)) = "2024-02-24"
  /\ Calendar.iso_date (1711323000000 - 30 * 86400000) = "2024-02-23".
Proof. vm_compute. repeat split; reflexivity. Qed.

(** A deployment on a host in New York whose clock reads [now]. *)
Definition in_new_york (now : Date) (e : Env) : Env :=
  {| OPENAI_API_KEY := OPENAI_API_KEY e;
     SLACK_WEBHOOK_URL := SLACK_WEBHOOK_URL e;
     EXTERNAL_WEBHOOK_URL := EXTERNAL_WEBHOOK_URL e;
     IMAP_ACCOUNT_1_USER := IMAP_ACCOUNT_1_USER e;
     IMAP_ACCOUNT_1_PASS := IMAP_ACCOUNT_1_PASS e;
     IMAP_ACCOUNT_2_HOST := IMAP_ACCOUNT_2_HOST e;
     IMAP_ACCOUNT_2_USER := IMAP_ACCOUNT_2_USER e;
     IMAP_ACCOUNT_2_PASS := IMAP_ACCOUNT_2_PASS e;
     clock := fun _ => now;
     LocalTZA := new_york_2024;
     imap_connect := imap_connect e;
     imap_getMailboxLock := imap_getMailboxLock e;
     imap_search := imap_search e;
     imap_fetchOne := imap_fetchOne e;
     simpleParser := simpleParser e;
     chat_completions_create := chat_completions_create e;
     JSON_parse := JSON_parse e;
     client_index := client_index e;
     axios_post := axios_post e |}.

(** The backfill started there on 24 March 2024 at 19:30 searches since
    24 February, and in the winter, with the same offset at both ends,
    since the day 30 times 24 hours before. *)
Example backfill_query_across_daylight_saving :
  backfill_query (in_new_york 1711323000000 Demo.env) initial
  = {| since := Some "2024-02-24"; seen := None |}
  /\ ImapSearch "gmail-account-1" {| since := Some "2024-02-24"; seen := None |}
       ∈ events (initialSync (in_new_york 1711323000000 Demo.env) "gmail-account-1"
                   initial)
  /\ backfill_query (in_new_york 1706830200000 Demo.env) initial
     = {| since := Some (Calendar.iso_date (1706830200000 - 30 * 86400000));
          seen := None |}.
Proof.
  split; [vm_compute; reflexivity|]. split; [|vm_compute; reflexivity].
  assert (H : events (initialSync (in_new_york 1711323000000 Demo.env) "gmail-account-1"
                        initial) !! 3%nat
              = Some (ImapSearch "gmail-account-1"
                        {| since := Some "2024-02-24"; seen := None |}))
    by (vm_compute; reflexivity).
  by apply list_elem_of_lookup_2 in H.
Qed.

(** C8, amended.  The backfill reads the clock and moves that time back
    by 30 calendar days of the host's time zone, keeping the local time
    of day; this is 30 times 24 hours before when the offset of the zone
    is the same at both ends.  It searches with the UTC date of the
    result as its [since] criterion.  It fetches UIDs of the search
    result only, in order: all of them when every fetch returns, and
    those up to the first UID whose fetch throws otherwise.  It has no
    date filter of its own: what it fetches is inside the window when all
    the search returned is. *)
Theorem backfill_searches_window_and_fetches_result (env : Env) (accountId : string)
    (s : State) (res : option (list N)) :
  imap_getMailboxLock env accountId "INBOX" = Returns tt ->
  imap_search env accountId "INBOX" (backfill_query env s) = Returns res ->
  let r := initialSync env accountId s in
  let now := clock env (ticks s) in
  let local := Calendar.LocalTime (LocalTZA env) now in
  let lower := date30DaysAgo env now in
  lower = Calendar.UTC (LocalTZA env) (local - 30 * 86400000)
  /\ Calendar.day_number (local - 30 * 86400000) = Calendar.day_number local - 30
  /\ Calendar.TimeWithinDay (local - 30 * 86400000) = Calendar.TimeWithinDay local
  /\ (LocalTZA env (local - 30 * 86400000) false = LocalTZA env now true ->
      lower = now - 30 * 86400000)
  /\ ImapSearch accountId {| since := Some (Calendar.iso_date lower); seen := None |}
       ∈ events r
  /\ fetched (events r) `prefix_of` array_or_empty res
  /\ ((forall seq, seq ∈ array_or_empty res ->
                   exists m, imap_fetchOne env accountId "INBOX" seq = Returns m) ->
      fetched (events r) = array_or_empty res)
  /\ (forall before seq after e,
        array_or_empty res = before ++ seq :: after ->
        (forall u, u ∈ before ->
                   exists m, imap_fetchOne env accountId "INBOX" u = Returns m) ->
        imap_fetchOne env accountId "INBOX" seq = Throws e ->
        fetched (events r) = before ++ [seq])
  /\ (forall dated : N -> Date,
        (forall seq, seq ∈ array_or_empty res -> lower <= dated seq) ->
        backfill_fetches_only_in_window env dated accountId s).
Proof.
  intros Hlock Hsearch r now local lower.
  destruct (initialSync_observations env accountId s res Hlock Hsearch)
    as (Hq & _ & Hpre & Hall).
  fold r in Hq, Hpre, Hall.
  pose proof (date30DaysAgo_local env now) as Hlower. fold local lower in Hlower.
  destruct (local_day_moves_back local 30) as [Hday Htime].
  split_and!; try done.
  - intros Hsame. rewrite Hlower. unfold Calendar.UTC. rewrite Hsame.
    subst local. unfold Calendar.LocalTime. lia.
  - intros Hret. by destruct (Hall Hret) as (_ & Hf & _).
  - intros before seq after e Hres Hbefore Hthrow.
    by destruct (initialSync_stops_at_failed_fetch env accountId s res before after seq e
                   Hlock Hsearch Hres Hbefore Hthrow) as (_ & Hf & _).
  - intros dated Hin seq Hseq. apply Hin.
    destruct Hpre as [k Hk]. rewrite Hk. apply elem_of_app. by left.
Qed.

(** The backfill of the demo mailbox at the first reading of the clock. *)
Lemma backfill_searches_window_and_fetches_result_witness :
  ImapSearch "gmail-account-1" {| since := Some "2023-10-15"; seen := None |}
    ∈ events (initialSync Demo.env "gmail-account-1" initial)
  /\ fetched (events (initialSync Demo.env "gmail-account-1" initial)) = [7%N; 9%N].
Proof.
  destruct (backfill_searches_window_and_fetches_result Demo.env "gmail-account-1"
              initial (Some [7%N; 9%N]) eq_refl eq_refl)
    as (_ & _ & _ & _ & Hq & _ & Hf & _).
  split; [exact Hq|]. apply Hf. intros seq _. unfold Demo.env, Demo.make, Demo.mailbox.
  simpl. destruct (seq =? 7)%N; [|destruct (seq =? 9)%N]; eexists; reflexivity.
Defined.

(** C9, as worded, fails: a fetch that throws is not caught inside the
    loop, so it ends the backfill and the UIDs after it are never fetched. *)
Lemma failed_fetch_ends_backfill :
  let r := initialSync Demo.env_fetch_7_down "gmail-account-1" initial in
  imap_search Demo.env_fetch_7_down "gmail-account-1" "INBOX"
    (backfill_query Demo.env_fetch_7_down initial) = Returns (Some [7%N; 9%N])
  /\ fetched (events r) = [7%N]
  /\ completion r = Throws (Js.Error "Connection not available")
  /\ ~ backfill_fetches_every_uid Demo.env_fetch_7_down "gmail-account-1" initial.
Proof.
  assert (Hf : fetched (events (initialSync Demo.env_fetch_7_down "gmail-account-1"
                                  initial)) = [7%N]) by (vm_compute; reflexivity).
  cbv zeta. split; [reflexivity|]. split; [exact Hf|]. split; [by vm_compute|].
  unfold backfill_fetches_every_uid. intros H.
  specialize (H (Some [7%N; 9%N]) eq_refl eq_refl). rewrite Hf in H. discriminate H.
Qed.

(** C9, amended.  Within one account's backfill the UIDs are fetched one
    after the other in the order of the search result, and the lock is
    released on every path.  When every fetch returns, with a message or
    with none, the backfill runs to its end: every UID is fetched and
    every source that came back is handed to the processor, in order,
    whatever happens to a message in parsing, classification, storage or
    notification.  A fetch that throws ends the backfill at that UID:
    the UIDs before it have been fetched and their messages processed,
    it is the last UID fetched, the lock is released as the last thing
    the backfill does, and what the fetch threw leaves the backfill. *)
Theorem backfill_survives_message_failures (env : Env) (accountId : string)
    (s : State) (res : option (list N)) :
  imap_getMailboxLock env accountId "INBOX" = Returns tt ->
  imap_search env accountId "INBOX" (backfill_query env s) = Returns res ->
  let r := initialSync env accountId s in
  fetched (events r) `prefix_of` array_or_empty res
  /\ LockRelease accountId "INBOX" ∈ events r
  /\ ((forall seq, seq ∈ array_or_empty res ->
                   exists m, imap_fetchOne env accountId "INBOX" seq = Returns m) ->
      completion r = Returns tt
      /\ fetched (events r) = array_or_empty res
      /\ parsed_sources (events r)
         = omap (source_at env accountId "INBOX") (array_or_empty res))
  /\ (forall before seq after e,
        array_or_empty res = before ++ seq :: after ->
        (forall u, u ∈ before ->
                   exists m, imap_fetchOne env accountId "INBOX" u = Returns m) ->
        imap_fetchOne env accountId "INBOX" seq = Throws e ->
        completion r = Throws e
        /\ fetched (events r) = before ++ [seq]
        /\ parsed_sources (events r) = omap (source_at env accountId "INBOX") before
        /\ last (events r) = Some (LockRelease accountId "INBOX")).
Proof.
  intros Hlock Hsearch r.
  destruct (initialSync_observations env accountId s res Hlock Hsearch)
    as (_ & Hrel & Hpre & Hall).
  split_and!; try done.
  intros before seq after e Hres Hbefore Hthrow.
  exact (initialSync_stops_at_failed_fetch env accountId s res before after seq e
           Hlock Hsearch Hres Hbefore Hthrow).
Qed.

(** The backfill of the demo mailbox while the store is down: message 7
    fails in storage, message 9 has no source, and both are fetched. *)
Lemma backfill_survives_message_failures_witness :
  let r := initialSync Demo.env_store_down "gmail-account-1" initial in
  completion r = Returns tt
  /\ fetched (events r) = [7%N; 9%N]
  /\ parsed_sources (events r) = ["raw-7"].
Proof.
  destruct (backfill_survives_message_failures Demo.env_store_down "gmail-account-1"
              initial (Some [7%N; 9%N]) eq_refl eq_refl) as (_ & _ & Hall & _).
  apply Hall. intros seq _. unfold Demo.env_store_down, Demo.make, Demo.mailbox.
  simpl. destruct (seq =? 7)%N; [|destruct (seq =? 9)%N]; eexists; reflexivity.
Defined.

(** *** Accounts *)

(** C6.  When the connection of one configured account fails, the run
    over all accounts is the run over the accounts before it, then the
    attempt and the logged error of the failing account and nothing else
    of it, then the whole run over the accounts after it; it never
    throws.  Every other configured account has its connection attempted;
    once connected its backfill starts, and when its backfill returns its
    live-sync handler is registered. *)
Theorem connect_failure_is_isolated (env : Env) (before after : list AccountConfig)
    (failing : AccountConfig) (s : State) (e : Js.Thrown) :
  configured failing = true ->
  imap_connect env failing = Throws e ->
  let rb := sync_accounts env before s in
  let ra := sync_accounts env after (set_clients (map_set (cfg_id failing)) (final rb)) in
  let r := sync_accounts env (before ++ failing :: after) s in
  r = mkRun (Returns tt) (final ra)
            (events rb
             ++ [ImapConnect (cfg_id failing);
                 Console ERROR ["[IMAP:" +:+ cfg_id failing
                                +:+ "] Connection or sync failed:";
                                Js.message_or_string e]]
             ++ events ra)
  /\ forall other,
       other ∈ before ++ after ->
       configured other = true ->
       ImapConnect (cfg_id other) ∈ events r
       /\ (imap_connect env other = Returns tt ->
           Console LOG ["[IMAP:" +:+ cfg_id other
                        +:+ "] Starting 30-day historical sync..."] ∈ events r
           /\ ((forall s', completion (initialSync env (cfg_id other) s') = Returns tt) ->
               OnExists (cfg_id other) ∈ events r)).
Proof.
  intros Hconf Hconn rb ra r.
  assert (Hr : r = mkRun (Returns tt) (final ra)
                     (events rb
                      ++ [ImapConnect (cfg_id failing);
                          Console ERROR ["[IMAP:" +:+ cfg_id failing
                                         +:+ "] Connection or sync failed:";
                                         Js.message_or_string e]]
                      ++ events ra)).
  { subst r. rewrite sync_accounts_app. cbv zeta. fold rb.
    rewrite sync_accounts_cons. cbv zeta.
    unfold sync_account. rewrite Hconf.
    rewrite (connectAndSyncAccount_connect_fails env failing (final rb) e Hconn).
    cbn [completion final events]. fold ra. reflexivity. }
  split; [exact Hr|].
  intros other Hin Hother. rewrite Hr. cbn [events].
  assert (Hsub : exists s0, forall ev,
             ev ∈ events (connectAndSyncAccount env other s0) ->
             ev ∈ events rb
                  ++ [ImapConnect (cfg_id failing);
                      Console ERROR ["[IMAP:" +:+ cfg_id failing
                                     +:+ "] Connection or sync failed:";
                                     Js.message_or_string e]]
                  ++ events ra).
  { apply elem_of_app in Hin as [Hin|Hin].
    - destruct (sync_accounts_includes env before s other Hin Hother) as [s0 Hs0].
      exists s0. intros ev Hev. apply elem_of_app. left. by apply Hs0.
    - destruct (sync_accounts_includes env after
                  (set_clients (map_set (cfg_id failing)) (final rb)) other Hin Hother)
        as [s0 Hs0].
      exists s0. intros ev Hev. rewrite !elem_of_app. right. right. by apply Hs0. }
  destruct Hsub as [s0 Hsub].
  destruct (connectAndSyncAccount_trace env other s0) as (Hc & Hrest).
  split; [by apply Hsub|].
  intros Hok. destruct (Hrest Hok) as (Hstart & Hlive).
  split; [by apply Hsub|]. intros Hret. apply Hsub. by apply Hlive.
Qed.

(** [startSync] when the first of the two accounts cannot connect. *)
Lemma connect_failure_is_isolated_witness :
  let r := startSync Demo.env_account_1_down initial in
  completion r = Returns tt
  /\ ImapConnect "placeholder-account-2" ∈ events r
  /\ Console LOG ["[IMAP:" +:+ "placeholder-account-2"
                  +:+ "] Starting 30-day historical sync..."] ∈ events r
  /\ OnExists "placeholder-account-2" ∈ events r.
Proof.
  destruct (connect_failure_is_isolated Demo.env_account_1_down [] [Demo.account_2]
              Demo.account_1 initial (Js.Error "ECONNREFUSED") eq_refl eq_refl)
    as [Hr Hothers].
  destruct (Hothers Demo.account_2) as (Hconn & Hrest); [by left|reflexivity|].
  destruct (Hrest eq_refl) as (Hstart & Hlive).
  change (startSync Demo.env_account_1_down initial)
    with (sync_accounts Demo.env_account_1_down ([] ++ Demo.account_1 :: [Demo.account_2])
            initial).
  cbv zeta. split; [by rewrite Hr|]. split; [exact Hconn|]. split; [exact Hstart|].
  apply Hlive. intros s'.
  destruct (initialSync_observations Demo.env_account_1_down "placeholder-account-2" s'
              (Some [7%N; 9%N]) eq_refl eq_refl) as (_ & _ & _ & Hall).
  apply Hall. intros seq _. unfold Demo.env_account_1_down, Demo.make, Demo.mailbox.
  simpl. destruct (seq =? 7)%N; [|destruct (seq =? 9)%N]; eexists; reflexivity.
Defined.

(** * Further properties of the services

    Footprints of the services on the state and on the trace, the
    services of the backend that the pipeline does not call (search,
    bootstrap of the index, the HTTP endpoints and the start of the
    server) and the functions of the front end. *)

(** ** Footprints

    [preserves R m]: every run of [m] relates the state it starts from to
    the state it ends in.  [emits P m]: every event of every run of [m]
    satisfies [P]. *)

Definition preserves {A} (R : State -> State -> Prop) (m : M A) : Prop :=
  forall s, R s (final (m s)).

Definition emits {A} (P : Event -> Prop) (m : M A) : Prop :=
  forall s, Forall P (events (m s)).

Section Footprint.

Context (R : State -> State -> Prop) `{!PreOrder R} (P : Event -> Prop).

Lemma preserves_ret {A} (a : A) : preserves R (ret a).
Proof. intros s. reflexivity. Qed.

Lemma preserves_throw {A} (e : Js.Thrown) : preserves R (@throw A e).
Proof. intros s. reflexivity. Qed.

Lemma preserves_lift {A} (c : Completion A) : preserves R (lift c).
Proof. intros s. reflexivity. Qed.

Lemma preserves_emit (e : Event) : preserves R (emit e).
Proof. intros s. reflexivity. Qed.

Lemma preserves_get : preserves R get.
Proof. intros s. reflexivity. Qed.

Lemma preserves_modify (f : State -> State) :
  (forall s, R s (f s)) -> preserves R (modify f).
Proof. intros H s. apply H. Qed.

Lemma preserves_bind {A B} (m : M A) (k : A -> M B) :
  preserves R m -> (forall a, preserves R (k a)) -> preserves R (bind m k).
Proof.
  intros Hm Hk s. unfold bind. specialize (Hm s).
  destruct (m s) as [[a|e] s1 ev1]; simpl in *; [|exact Hm].
  specialize (Hk a s1). destruct (k a s1) as [c s2 ev2]. simpl in *.
  by transitivity s1.
Qed.

Lemma preserves_try_catch {A} (m : M A) (h : Js.Thrown -> M A) :
  preserves R m -> (forall e, preserves R (h e)) -> preserves R (try_catch m h).
Proof.
  intros Hm Hh s. unfold try_catch. specialize (Hm s).
  destruct (m s) as [[a|e] s1 ev1]; simpl in *; [exact Hm|].
  specialize (Hh e s1). destruct (h e s1) as [c s2 ev2]. simpl in *.
  by transitivity s1.
Qed.

Lemma preserves_try_finally {A} (m : M A) (f : M unit) :
  preserves R m -> preserves R f -> preserves R (try_finally m f).
Proof.
  intros Hm Hf s. unfold try_finally. specialize (Hm s).
  destruct (m s) as [c s1 ev1]. simpl in *.
  specialize (Hf s1). destruct (f s1) as [[[]|e] s2 ev2]; simpl in *;
    by transitivity s1.
Qed.

Lemma preserves_for_of {A} (xs : list A) (body : A -> M unit) :
  (forall x, preserves R (body x)) -> preserves R (for_of xs body).
Proof.
  intros H. induction xs as [|x xs IH]; simpl.
  - apply preserves_ret.
  - apply preserves_bind; [apply H|]. intros _. exact IH.
Qed.

Lemma emits_ret {A} (a : A) : emits P (ret a).
Proof. intros s. constructor. Qed.

Lemma emits_throw {A} (e : Js.Thrown) : emits P (@throw A e).
Proof. intros s. constructor. Qed.

Lemma emits_lift {A} (c : Completion A) : emits P (lift c).
Proof. intros s. constructor. Qed.

Lemma emits_get : emits P get.
Proof. intros s. constructor. Qed.

Lemma emits_modify (f : State -> State) : emits P (modify f).
Proof. intros s. constructor. Qed.

Lemma emits_emit (e : Event) : P e -> emits P (emit e).
Proof. intros H s. by repeat constructor. Qed.

Lemma emits_bind {A B} (m : M A) (k : A -> M B) :
  emits P m -> (forall a, emits P (k a)) -> emits P (bind m k).
Proof.
  intros Hm Hk s. unfold bind. specialize (Hm s).
  destruct (m s) as [[a|e] s1 ev1]; simpl in *; [|exact Hm].
  specialize (Hk a s1). destruct (k a s1) as [c s2 ev2]. simpl in *.
  apply Forall_app. by split.
Qed.

Lemma emits_try_catch {A} (m : M A) (h : Js.Thrown -> M A) :
  emits P m -> (forall e, emits P (h e)) -> emits P (try_catch m h).
Proof.
  intros Hm Hh s. unfold try_catch. specialize (Hm s).
  destruct (m s) as [[a|e] s1 ev1]; simpl in *; [exact Hm|].
  specialize (Hh e s1). destruct (h e s1) as [c s2 ev2]. simpl in *.
  apply Forall_app. by split.
Qed.

Lemma emits_try_finally {A} (m : M A) (f : M unit) :
  emits P m -> emits P f -> emits P (try_finally m f).
Proof.
  intros Hm Hf s. unfold try_finally. specialize (Hm s).
  destruct (m s) as [c s1 ev1]. simpl in *.
  specialize (Hf s1). destruct (f s1) as [[[]|e] s2 ev2]; simpl in *;
    apply Forall_app; by split.
Qed.

Lemma emits_for_of {A} (xs : list A) (body : A -> M unit) :
  (forall x, emits P (body x)) -> emits P (for_of xs body).
Proof.
  intros H. induction xs as [|x xs IH]; simpl.
  - apply emits_ret.
  - apply emits_bind; [apply H|]. intros _. exact IH.
Qed.

End Footprint.

(** Walks through a service along its control flow, leaving the state
    changes it makes (for [preserves]) or the events it emits (for
    [emits]) to be checked. *)
Ltac footprint_step :=
  match goal with
  | |- preserves _ (match ?x with _ => _ end) => destruct x
  | |- preserves _ (bind _ _) =>
      apply preserves_bind; [typeclasses eauto| |intros ?]
  | |- preserves _ (try_catch _ _) =>
      apply preserves_try_catch; [typeclasses eauto| |intros ?]
  | |- preserves _ (try_finally _ _) =>
      apply preserves_try_finally; [typeclasses eauto| |]
  | |- preserves _ (for_of _ _) =>
      apply preserves_for_of; [typeclasses eauto|intros ?]
  | |- preserves _ (ret _) => apply preserves_ret; typeclasses eauto
  | |- preserves _ (throw _) => apply preserves_throw; typeclasses eauto
  | |- preserves _ (emit _) => apply preserves_emit; typeclasses eauto
  | |- preserves _ (lift _) => apply preserves_lift; typeclasses eauto
  | |- preserves _ get => apply preserves_get; typeclasses eauto
  | |- preserves _ (modify _) => apply preserves_modify; intros ?
  | |- emits _ (match ?x with _ => _ end) => destruct x
  | |- emits _ (bind _ _) => apply emits_bind; [|intros ?]
  | |- emits _ (try_catch _ _) => apply emits_try_catch; [|intros ?]
  | |- emits _ (try_finally _ _) => apply emits_try_finally
  | |- emits _ (for_of _ _) => apply emits_for_of; intros ?
  | |- emits _ (ret _) => apply emits_ret
  | |- emits _ (throw _) => apply emits_throw
  | |- emits _ (emit _) => apply emits_emit
  | |- emits _ (lift _) => apply emits_lift
  | |- emits _ get => apply emits_get
  | |- emits _ (modify _) => apply emits_modify
  end.

Ltac footprint :=
  unfold console_log, console_warn, console_error; cbv zeta;
  repeat (footprint_step; unfold console_log, console_warn, console_error; cbv zeta);
  try assumption.

(** *** The footprint of each service on the state *)

Section StateFootprint.

Context (env : Env) (R : State -> State -> Prop) `{!PreOrder R}.

(** The two changes the message processor makes: a document stored
    under its own id, and one more reading of the clock. *)
Hypothesis R_index : forall s doc, R s (set_es (insert (id doc) doc) s).
Hypothesis R_tick : forall s, R s (set_ticks S s).

Lemma categorizeEmail_preserves (subj body : string) :
  preserves R (categorizeEmail env subj body).
Proof. unfold categorizeEmail, first_content, get_category. footprint. Qed.

Lemma triggerInterestedAutomation_preserves (doc : EmailDocument) :
  preserves R (triggerInterestedAutomation env doc).
Proof.
  unfold triggerInterestedAutomation, sendSlackNotification, triggerExternalWebhook.
  footprint.
Qed.

Lemma indexDocument_preserves (doc : EmailDocument) :
  preserves R (indexDocument env doc).
Proof. unfold indexDocument, es_client_index. footprint. apply R_index. Qed.

Lemma processAndIndexEmail_preserves (msg : FetchMessageObject)
    (accountId folder_ : string) :
  preserves R (processAndIndexEmail env msg accountId folder_).
Proof.
  unfold processAndIndexEmail, date_or_now, new_Date. footprint;
    first [ apply categorizeEmail_preserves | apply indexDocument_preserves
          | apply triggerInterestedAutomation_preserves | apply R_tick ].
Qed.

Lemma fetch_and_process_preserves (accountId path : string) (seq : N) :
  preserves R (fetch_and_process env accountId path seq).
Proof. unfold fetch_and_process. footprint. apply processAndIndexEmail_preserves. Qed.

Lemma initialSync_preserves (accountId : string) :
  preserves R (initialSync env accountId).
Proof.
  unfold initialSync, new_Date. footprint;
    first [ apply fetch_and_process_preserves | apply R_tick ].
Qed.

Lemma exists_handler_preserves (accountId path : string) (count : N) :
  preserves R (exists_handler env accountId path count).
Proof. unfold exists_handler. footprint. apply fetch_and_process_preserves. Qed.

(** The two changes the account supervisor makes besides: the account is
    recorded among the clients, and its handler among the listeners. *)
Hypothesis R_client : forall s a, R s (set_clients (map_set a) s).
Hypothesis R_listener :
  forall s a, R s (set_listeners (fun registered => registered ++ [a]) s).

Lemma connectAndSyncAccount_preserves (config : AccountConfig) :
  preserves R (connectAndSyncAccount env config).
Proof.
  unfold connectAndSyncAccount, setupRealTimeIdle. footprint;
    first [ apply initialSync_preserves | apply R_client | apply R_listener ].
Qed.

Lemma sync_accounts_preserves (configs : list AccountConfig) :
  preserves R (sync_accounts env configs).
Proof. unfold sync_accounts. footprint. apply connectAndSyncAccount_preserves. Qed.

End StateFootprint.

(** *** The footprint of each service on the trace *)

(** The account of an operation on a mail session. *)
Definition session_of (e : Event) : option string :=
  match e with
  | ImapConnect a | GetMailboxLock a _ | LockRelease a _ | ImapSearch a _
  | ImapFetchOne a _ | OnExists a | OnError a => Some a
  | _ => None
  end.

Section TraceFootprint.

Context (env : Env) (P : Event -> Prop) (accountId : string).

Hypothesis P_pipeline : forall e, of_pipeline e -> P e.
Hypothesis P_parse : forall src, P (SimpleParser src).

Lemma categorizeEmail_emits (subj body : string) :
  emits P (categorizeEmail env subj body).
Proof.
  unfold categorizeEmail, first_content, get_category. footprint;
    by apply P_pipeline.
Qed.

Lemma triggerInterestedAutomation_emits (doc : EmailDocument) :
  emits P (triggerInterestedAutomation env doc).
Proof.
  unfold triggerInterestedAutomation, sendSlackNotification, triggerExternalWebhook.
  footprint; by apply P_pipeline.
Qed.

Lemma indexDocument_emits (doc : EmailDocument) : emits P (indexDocument env doc).
Proof. unfold indexDocument, es_client_index. footprint; by apply P_pipeline. Qed.

Lemma processAndIndexEmail_emits (msg : FetchMessageObject) (folder_ : string) :
  emits P (processAndIndexEmail env msg accountId folder_).
Proof.
  unfold processAndIndexEmail, date_or_now, new_Date. footprint;
    first [ apply categorizeEmail_emits | apply indexDocument_emits
          | apply triggerInterestedAutomation_emits | apply P_parse
          | by apply P_pipeline ].
Qed.

Hypothesis P_fetch : forall seq, P (ImapFetchOne accountId seq).

Lemma fetch_and_process_emits (path : string) (seq : N) :
  emits P (fetch_and_process env accountId path seq).
Proof.
  unfold fetch_and_process. footprint;
    first [ apply processAndIndexEmail_emits | apply P_fetch ].
Qed.

Lemma for_of_fetch_emits (path : string) (uids : list N) :
  emits P (for_of uids (fetch_and_process env accountId path)).
Proof. apply emits_for_of. intros seq. apply fetch_and_process_emits. Qed.

Hypothesis P_lock : forall path, P (GetMailboxLock accountId path).
Hypothesis P_release : forall path, P (LockRelease accountId path).
Hypothesis P_search : forall query, P (ImapSearch accountId query).

Lemma initialSync_emits : emits P (initialSync env accountId).
Proof.
  unfold initialSync, new_Date. footprint;
    first [ apply fetch_and_process_emits | apply P_lock | apply P_release
          | apply P_search | by apply P_pipeline ].
Qed.

Lemma exists_handler_emits (path : string) (count : N) :
  emits P (exists_handler env accountId path count).
Proof.
  unfold exists_handler. footprint;
    first [ apply fetch_and_process_emits | apply P_lock | apply P_release
          | apply P_search | by apply P_pipeline ].
Qed.

End TraceFootprint.

(** *** Accounts stay apart *)

(** [e] is no operation on a mail session, or one on the session of
    [accountId]. *)
Definition about (accountId : string) (e : Event) : Prop :=
  forall a, session_of e = Some a -> a = accountId.

Lemma about_pipeline (accountId : string) (e : Event) :
  of_pipeline e -> about accountId e.
Proof. destruct e; simpl; try tauto; intros _ a [=]. Qed.

Lemma connectAndSyncAccount_confined (env : Env) (config : AccountConfig) :
  emits (about (cfg_id config)) (connectAndSyncAccount env config).
Proof.
  unfold connectAndSyncAccount, setupRealTimeIdle. footprint;
    try (apply initialSync_emits; intros);
    try (by apply about_pipeline);
    intros acc Hacc; simpl in Hacc; congruence.
Qed.

Lemma sync_accounts_confined (env : Env) (configs : list AccountConfig) (s : State)
    (e : Event) (a : string) :
  e ∈ events (sync_accounts env configs s) ->
  session_of e = Some a ->
  exists config, config ∈ configs /\ configured config = true /\ cfg_id config = a.
Proof.
  revert s. induction configs as [|c configs IH]; intros s He Ha.
  { by apply not_elem_of_nil in He. }
  rewrite sync_accounts_cons in He. cbv zeta in He. cbn [events] in He.
  apply elem_of_app in He as [He|He].
  - unfold sync_account in He. destruct (configured c) eqn:Hc.
    + exists c. split; [by left|]. split; [done|].
      pose proof (connectAndSyncAccount_confined env c s) as Hall.
      rewrite Forall_forall in Hall. symmetry. by apply (Hall e He).
    + apply list_elem_of_singleton in He. subst e. discriminate Ha.
  - destruct (IH _ He Ha) as (config & Hin & Hconf & Hid).
    exists config. split; [by right|]. done.
Qed.

(** X1.  Every operation on a mail session that [startSync] performs is
    on the session of a configured account: the first account always,
    the placeholder account only when both its credentials are set.
    Without them the placeholder is skipped with a warning and no
    operation on its session happens. *)
Theorem startSync_talks_to_configured_accounts (env : Env) (s : State) :
  let r := startSync env s in
  ImapConnect "gmail-account-1" ∈ events r
  /\ (forall e a, e ∈ events r -> session_of e = Some a ->
        a = "gmail-account-1"
        \/ (a = "placeholder-account-2"
            /\ Js.truthy (IMAP_ACCOUNT_2_USER env) = true
            /\ Js.truthy (IMAP_ACCOUNT_2_PASS env) = true))
  /\ (Js.truthy (IMAP_ACCOUNT_2_USER env) && Js.truthy (IMAP_ACCOUNT_2_PASS env) = false ->
      Console WARN ["[IMAP:" +:+ "placeholder-account-2"
                    +:+ "] Skipping sync: Credentials missing in .env."] ∈ events r).
Proof.
  intros r. subst r. unfold startSync, ACCOUNT_CONFIGS. split_and!.
  - rewrite sync_accounts_cons. cbv zeta. cbn [events]. apply elem_of_app. left.
    unfold sync_account, configured. cbn.
    by destruct (connectAndSyncAccount_trace env
                   {| cfg_id := "gmail-account-1"; host := "imap.gmail.com"; port := 993;
                      secure := true;
                      auth := {| user := IMAP_ACCOUNT_1_USER env;
                                 pass := IMAP_ACCOUNT_1_PASS env |} |} s) as [H _].
  - intros e a He Ha.
    destruct (sync_accounts_confined env _ s e a He Ha) as (config & Hin & Hconf & <-).
    apply elem_of_cons in Hin as [->|Hin]; [by left|].
    apply list_elem_of_singleton in Hin. subst config. right.
    unfold configured in Hconf. cbn in Hconf.
    apply andb_true_iff in Hconf as [Hu Hp]. done.
  - intros Hmissing. rewrite !sync_accounts_cons. cbv zeta. cbn [events].
    rewrite !elem_of_app. right. left.
    unfold sync_account, configured. cbn. rewrite Hmissing. by left.
Qed.

(** *** The mailbox lock *)

(** The operations on a mailbox, as the mail server sees them. *)
Inductive MailboxOp : Type :=
| Acquire (account path : string)
| Release (account path : string)
| Search (account : string) (query : SearchObject)
| Fetch (account : string) (seq : N).

Definition mailbox_op (e : Event) : option MailboxOp :=
  match e with
  | GetMailboxLock a p => Some (Acquire a p)
  | LockRelease a p => Some (Release a p)
  | ImapSearch a q => Some (Search a q)
  | ImapFetchOne a seq => Some (Fetch a seq)
  | _ => None
  end.

Definition mailbox_ops (evs : list Event) : list MailboxOp := omap mailbox_op evs.

Lemma mailbox_ops_of_fetches (accountId : string) (evs : list Event) :
  Forall (fun e => mailbox_op e = Fetch accountId <$> fetch e) evs ->
  mailbox_ops evs = Fetch accountId <$> fetched evs.
Proof.
  unfold mailbox_ops, fetched. induction 1 as [|e evs He _ IH]; [done|].
  cbn. rewrite He. destruct (fetch e); cbn; by rewrite IH.
Qed.

Lemma for_of_fetch_mailbox_ops (env : Env) (accountId path : string) (uids : list N)
    (s : State) :
  mailbox_ops (events (for_of uids (fetch_and_process env accountId path) s))
  = Fetch accountId
      <$> fetched (events (for_of uids (fetch_and_process env accountId path) s)).
Proof.
  apply mailbox_ops_of_fetches.
  apply (for_of_fetch_emits env
           (fun e => mailbox_op e = Fetch accountId <$> fetch e) accountId);
    [intros []; simpl; tauto|done|done].
Qed.

(** X2.  The backfill works under the lock of INBOX: it asks for the
    lock first; if the lock is refused nothing else is asked of the
    mailbox and the refusal is thrown on; once it has the lock, its one
    search and all its fetches come before the release, and the lock is
    released exactly once on every path, also when the search or a fetch
    throws. *)
Theorem initialSync_works_under_the_lock (env : Env) (accountId : string) (s : State) :
  let r := initialSync env accountId s in
  let query := backfill_query env s in
  match imap_getMailboxLock env accountId "INBOX" with
  | Throws e =>
      mailbox_ops (events r) = [Acquire accountId "INBOX"] /\ completion r = Throws e
  | Returns _ =>
      match imap_search env accountId "INBOX" query with
      | Throws e =>
          mailbox_ops (events r)
          = [Acquire accountId "INBOX"; Search accountId query; Release accountId "INBOX"]
          /\ completion r = Throws e
      | Returns _ =>
          mailbox_ops (events r)
          = [Acquire accountId "INBOX"; Search accountId query]
            ++ (Fetch accountId <$> fetched (events r))
            ++ [Release accountId "INBOX"]
      end
  end.
Proof.
  intros r query. subst r query.
  destruct (imap_getMailboxLock env accountId "INBOX") as [[]|e] eqn:Hlock.
  2: { unfold initialSync, new_Date, try_finally, bind, emit, lift, get, modify,
         console_log. simpl. by rewrite Hlock. }
  destruct (imap_search env accountId "INBOX" (backfill_query env s)) as [res|e]
    eqn:Hsearch.
  2: { unfold initialSync, new_Date, try_finally, bind, emit, lift, get, modify,
         console_log. simpl. rewrite Hlock. simpl.
       unfold backfill_query in Hsearch. simpl in Hsearch. by rewrite Hsearch. }
  rewrite (initialSync_run env accountId s res Hlock Hsearch). cbv zeta.
  pose proof (for_of_fetch_mailbox_ops env accountId "INBOX" (array_or_empty res)
                (set_ticks S s)) as Hloop.
  remember (for_of (array_or_empty res) (fetch_and_process env accountId "INBOX")
              (set_ticks S s)) as loop eqn:Heq. clear Heq.
  cbn [events]. unfold mailbox_ops, fetched in *.
  rewrite !omap_app. cbn. rewrite ?omap_app, Hloop.
  destruct (completion loop); cbn; by rewrite ?app_nil_r.
Qed.

(** X3.  The handler of a notification never throws, and it too works
    under the lock of the notified mailbox: a refused lock ends it with
    nothing else asked; once it has the lock it searches once, fetches at
    most one message, the last UID of the search result, and releases
    the lock exactly once, also when the search or the fetch throws. *)
Theorem exists_handler_works_under_the_lock (env : Env) (accountId path : string)
    (count : N) (s : State) :
  let r := exists_handler env accountId path count s in
  completion r = Returns tt
  /\ mailbox_ops (events r)
     = match imap_getMailboxLock env accountId path with
       | Throws _ => [Acquire accountId path]
       | Returns _ =>
           [Acquire accountId path; Search accountId unseen_query]
           ++ match imap_search env accountId path unseen_query with
              | Returns res =>
                  match last (array_or_empty res) with
                  | Some latestUid => [Fetch accountId latestUid]
                  | None => []
                  end
              | Throws _ => []
              end
           ++ [Release accountId path]
       end.
Proof.
  intros r. subst r. split; [apply exists_handler_returns|].
  destruct (imap_getMailboxLock env accountId path) as [[]|e] eqn:Hlock.
  2: { unfold exists_handler, try_catch, try_finally, bind, emit, lift, console_log,
         console_error. simpl. by rewrite Hlock. }
  destruct (imap_search env accountId path unseen_query) as [res|e] eqn:Hsearch.
  2: { unfold exists_handler, try_catch, try_finally, bind, emit, lift, console_log,
         console_error. simpl. rewrite Hlock. simpl.
       unfold unseen_query in Hsearch. by rewrite Hsearch. }
  rewrite (exists_handler_run env accountId path count s res Hlock Hsearch). cbv zeta.
  destruct (last (array_or_empty res)) as [u|]; [|done].
  pose proof (mailbox_ops_of_fetches accountId
                (events (fetch_and_process env accountId path u s))) as Hops.
  destruct (fetch_and_process_run env accountId path u s) as (_ & Hf & _ & _).
  rewrite Hf in Hops.
  assert (Hfp : mailbox_ops (events (fetch_and_process env accountId path u s))
                = [Fetch accountId u]).
  { apply Hops.
    apply (fetch_and_process_emits env
             (fun e => mailbox_op e = Fetch accountId <$> fetch e) accountId);
      [intros []; simpl; tauto|done|done]. }
  remember (fetch_and_process env accountId path u s) as fp eqn:Heq. clear Heq.
  cbn [events]. unfold mailbox_ops in *.
  rewrite !omap_app. cbn. rewrite ?omap_app, Hfp.
  by destruct (completion fp).
Qed.

(** *** Live sync follows a completed backfill *)

(** The clients and the listeners are the same in both states. *)
Definition same_registry (s s' : State) : Prop :=
  clients s' = clients s /\ listeners s' = listeners s.

#[local] Instance same_registry_preorder : PreOrder same_registry.
Proof.
  split; [by intros s|]. intros s1 s2 s3 [H1 H2] [H3 H4]. unfold same_registry.
  split; congruence.
Qed.

Lemma initialSync_keeps_registry (env : Env) (accountId : string) (s : State) :
  same_registry s (final (initialSync env accountId s)).
Proof. by apply (initialSync_preserves env same_registry). Qed.

Lemma initialSync_registers_nothing (env : Env) (accountId : string) (s : State)
    (a : string) :
  OnExists a ∉ events (initialSync env accountId s).
Proof.
  pose proof (initialSync_emits env (fun e => e <> OnExists a) accountId) as H.
  intros Hin. eapply Forall_forall in H; [by apply H| | | | | | |exact Hin];
    try done.
  intros []; simpl; try tauto; done.
Qed.

(** X4.  The handler of live sync is registered for an account exactly
    when its connection succeeded and its backfill returned: an account
    whose backfill throws (a refused lock, a failed search, a failed
    fetch) is left without live sync, and is still recorded among the
    clients. *)
Theorem live_sync_follows_completed_backfill (env : Env) (config : AccountConfig)
    (s : State) :
  let r := connectAndSyncAccount env config s in
  let backfill :=
    initialSync env (cfg_id config) (set_clients (map_set (cfg_id config)) s) in
  let ready := imap_connect env config = Returns tt /\ completion backfill = Returns tt in
  (OnExists (cfg_id config) ∈ events r <-> ready)
  /\ (ready -> listeners (final r) = listeners s ++ [cfg_id config])
  /\ (~ ready -> listeners (final r) = listeners s)
  /\ cfg_id config ∈ clients (final r).
Proof.
  intros r backfill ready. subst r ready.
  assert (Hclient : forall s0, clients s0 = clients (set_clients (map_set (cfg_id config)) s) ->
                               cfg_id config ∈ clients s0).
  { intros s0 ->. simpl. unfold map_set. case_bool_decide as Hin; [done|].
    apply elem_of_app. right. by left. }
  destruct (imap_connect env config) as [[]|e] eqn:Hconn.
  - rewrite (connectAndSyncAccount_connected env config s Hconn). cbv zeta.
    fold backfill. cbn [events final].
    destruct (initialSync_keeps_registry env (cfg_id config)
                (set_clients (map_set (cfg_id config)) s)) as [Hc Hl].
    pose proof (initialSync_registers_nothing env (cfg_id config)
                  (set_clients (map_set (cfg_id config)) s) (cfg_id config)) as Hno.
    fold backfill in Hc, Hl, Hno. simpl in Hl.
    destruct (completion backfill) as [[]|e] eqn:Hb.
    + split_and!.
      * split; [done|]. intros _. apply elem_of_app. right. apply elem_of_app. right.
        by left.
      * intros _. simpl. by rewrite Hl.
      * intros H. destruct H. done.
      * simpl. by apply Hclient.
    + split_and!.
      * split; [|by intros [_ [=]]]. intros Hin.
        apply elem_of_app in Hin as [Hin|Hin].
        { apply elem_of_cons in Hin as [[=]|Hin].
          by apply list_elem_of_singleton in Hin. }
        apply elem_of_app in Hin as [Hin|Hin]; [done|].
        by apply list_elem_of_singleton in Hin.
      * by intros [_ [=]].
      * intros _. exact Hl.
      * by apply Hclient.
  - rewrite (connectAndSyncAccount_connect_fails env config s e Hconn).
    cbn [events final]. split_and!.
    + split; [|by intros [[=] _]]. intros Hin.
      apply elem_of_cons in Hin as [[=]|Hin].
      by apply list_elem_of_singleton in Hin.
    + by intros [[=] _].
    + done.
    + by apply Hclient.
Qed.

(** *** The store only grows, under the documents' own ids *)

(** Every document of the store is stored under its own id. *)
Definition well_keyed (s : State) : Prop :=
  forall k doc, es s !! k = Some doc -> id doc = k.

(** From [s] to [s'] the store stays well keyed, no document is
    deleted, the clock is not read backwards, no client is forgotten and
    no listener removed. *)
Definition evolves (s s' : State) : Prop :=
  (well_keyed s -> well_keyed s')
  /\ (forall k, is_Some (es s !! k) -> is_Some (es s' !! k))
  /\ (ticks s <= ticks s')%nat
  /\ (forall a, a ∈ clients s -> a ∈ clients s')
  /\ listeners s `prefix_of` listeners s'.

#[local] Instance evolves_preorder : PreOrder evolves.
Proof.
  split.
  - intros s. by repeat split.
  - intros s1 s2 s3 (Hk & Hd & Ht & Hc & Hl) (Hk' & Hd' & Ht' & Hc' & Hl').
    split_and!; [tauto|auto|lia|auto|by etrans].
Qed.

Lemma evolves_index (s : State) (doc : EmailDocument) :
  evolves s (set_es (insert (id doc) doc) s).
Proof.
  split_and!; simpl; try done.
  - intros Hk k d. simpl. destruct (decide (id doc = k)) as [<-|Hne].
    + rewrite lookup_insert_eq. by intros [= <-].
    + rewrite lookup_insert_ne by done. apply Hk.
  - intros k Hk. destruct (decide (id doc = k)) as [<-|Hne].
    + by rewrite lookup_insert_eq.
    + by rewrite lookup_insert_ne.
Qed.

Lemma evolves_tick (s : State) : evolves s (set_ticks S s).
Proof. split_and!; simpl; try done. lia. Qed.

Lemma evolves_client (s : State) (a : string) : evolves s (set_clients (map_set a) s).
Proof.
  split_and!; simpl; try done. intros b Hb. unfold map_set.
  case_bool_decide; [done|]. apply elem_of_app. by left.
Qed.

Lemma evolves_listener (s : State) (a : string) :
  evolves s (set_listeners (fun registered => registered ++ [a]) s).
Proof. split_and!; simpl; try done. by apply prefix_app_r. Qed.

(** X5.  Whatever the collaborators answer, a run of [startSync] and a
    run of the live-sync handler keep the store well keyed (every
    document under its own id), delete no document, forget no client and
    remove no listener. *)
Theorem pipeline_only_grows_the_store (env : Env) (s : State) :
  evolves s (final (startSync env s))
  /\ forall accountId path count,
       evolves s (final (exists_handler env accountId path count s)).
Proof.
  split.
  - apply (sync_accounts_preserves env evolves);
      auto using evolves_index, evolves_tick, evolves_client, evolves_listener.
  - intros accountId path count.
    apply (exists_handler_preserves env evolves);
      auto using evolves_index, evolves_tick.
Qed.

(** *** The notification sink and its channels *)

Definition post (e : Event) : option (string * Payload) :=
  match e with
  | AxiosPost url body => Some (url, body)
  | _ => None
  end.

(** The requests sent to the webhooks, in order. *)
Definition posted (evs : list Event) : list (string * Payload) := omap post evs.

(** X6.  The sink never throws and leaves the state alone, and its two
    channels are independent: whatever the webhooks answer, one request
    goes to Slack when its URL is set and one to the external webhook
    when its URL is set, in that order; a failed Slack request does not
    keep the external webhook from being called. *)
Theorem automation_channels_are_independent (env : Env) (doc : EmailDocument)
    (s : State) :
  let r := triggerInterestedAutomation env doc s in
  completion r = Returns tt
  /\ final r = s
  /\ posted (events r)
     = (if Js.truthy (SLACK_WEBHOOK_URL env)
        then [(non_null (SLACK_WEBHOOK_URL env),
               SlackBlocks (account_id doc) (from doc) (subject doc))]
        else [])
       ++ (if Js.truthy (EXTERNAL_WEBHOOK_URL env)
           then [(non_null (EXTERNAL_WEBHOOK_URL env),
                  InterestedEvent (id doc) (account_id doc) (subject doc) (from doc)
                                  (date doc))]
           else []).
Proof.
  intros r. subst r.
  unfold triggerInterestedAutomation, sendSlackNotification, triggerExternalWebhook,
    try_catch, bind, emit, lift, console_log, console_warn, console_error.
  simpl.
  destruct (Js.truthy (SLACK_WEBHOOK_URL env)), (Js.truthy (EXTERNAL_WEBHOOK_URL env));
    simpl;
    repeat match goal with
           | |- context [axios_post env ?u ?p] => destruct (axios_post env u p) as [[]|?]
           end; simpl; done.
Qed.

(** *** The classifier and its prompt *)

(** Cutting twice is cutting once. *)
Lemma take_units_idempotent (units pending : nat) (s : string) :
  Js.take_units units pending (Js.take_units units pending s)
  = Js.take_units units pending s.
Proof.
  revert units pending. induction s as [|c s IH]; intros units pending; [reflexivity|].
  destruct pending as [|p]; simpl.
  2: { by rewrite IH. }
  destruct units as [|u]; [reflexivity|].
  destruct (Ascii.N_of_ascii c <? 240)%N eqn:Hc; simpl.
  - rewrite Hc. by rewrite IH.
  - destruct u as [|u]; [reflexivity|]. simpl. rewrite Hc. by rewrite IH.
Qed.

(** The cut has at most the code units asked for. *)
Lemma count_take_units (units pending : nat) (s : string) :
  (Js.count_units pending (Js.take_units units pending s) <= units)%nat.
Proof.
  revert units pending. induction s as [|c s IH]; intros units pending; [simpl; lia|].
  destruct pending as [|p]; simpl; [|apply IH].
  destruct units as [|u]; [simpl; lia|].
  unfold Js.utf16_units.
  destruct (Ascii.N_of_ascii c <? 240)%N eqn:Hc; simpl.
  - unfold Js.utf16_units. rewrite Hc. specialize (IH u (Js.utf8_size c - 1)%nat). lia.
  - destruct u as [|u]; [vm_compute; lia|]. simpl.
    unfold Js.utf16_units, Js.utf8_size. rewrite Hc.
    assert (H1 : (Ascii.N_of_ascii c <? 192)%N = false).
    { apply N.ltb_ge. apply N.ltb_ge in Hc. lia. }
    assert (H2 : (Ascii.N_of_ascii c <? 224)%N = false).
    { apply N.ltb_ge. apply N.ltb_ge in Hc. lia. }
    rewrite H1, H2. simpl. specialize (IH u 3%nat). lia.
Qed.

(** A string that is short enough is not cut. *)
Lemma take_units_short (units pending : nat) (s : string) :
  (Js.count_units pending s <= units)%nat -> Js.take_units units pending s = s.
Proof.
  revert units pending. induction s as [|c s IH]; intros units pending H; [reflexivity|].
  destruct pending as [|p]; simpl in *.
  { unfold Js.utf16_units, Js.utf8_size in *.
    destruct (Ascii.N_of_ascii c <? 240)%N eqn:Hc.
    - destruct units as [|u]; [lia|]. rewrite IH; [reflexivity|].
      unfold Js.utf8_size. lia.
    - assert (H1 : (Ascii.N_of_ascii c <? 192)%N = false).
      { apply N.ltb_ge. apply N.ltb_ge in Hc. lia. }
      assert (H2 : (Ascii.N_of_ascii c <? 224)%N = false).
      { apply N.ltb_ge. apply N.ltb_ge in Hc. lia. }
      rewrite H1, H2 in H. simpl in H.
      destruct units as [|[|u]]; [lia|lia|]. rewrite IH; [reflexivity|]. lia. }
  by rewrite IH.
Qed.

(** [héllo] has five code units in six bytes; the cut after two code
    units keeps the whole of [é]. *)
Example substring0_counts_code_units :
  String.length "héllo" = 6%nat
  /\ Js.length "héllo" = 5%nat
  /\ Js.substring0 2 "héllo" = "hé".
Proof. vm_compute. repeat split; reflexivity. Qed.

(** A character outside the Basic Multilingual Plane is two code units:
    a cut after both keeps the character, a cut between them keeps its
    first surrogate, here U+D83D. *)
Example substring0_cuts_a_surrogate_pair :
  Js.length "a😀b" = 4%nat
  /\ Js.substring0 3 "a😀b" = "a😀"
  /\ Js.substring0 2 "a😀b"
     = "a" +:+ String (Ascii.ascii_of_nat 237)
                 (String (Ascii.ascii_of_nat 160)
                    (String (Ascii.ascii_of_nat 189) EmptyString)).
Proof. vm_compute. repeat split; reflexivity. Qed.

(** X7.  The classifier reads at most the first 2000 UTF-16 code units
    of the body: a body and its first 2000 code units give the same run,
    and a body of at most 2000 code units is sent whole.  It calls the
    oracle at most once, and the user prompt it sends is the subject and
    that cut of the body inside the fixed template. *)
Theorem categorizeEmail_truncates_the_body (env : Env) (subj body : string) (s : State) :
  let r := categorizeEmail env subj body s in
  let cut := Js.substring0 2000 body in
  r = categorizeEmail env subj cut s
  /\ (Js.length cut <= 2000)%nat
  /\ ((Js.length body <= 2000)%nat -> cut = body)
  /\ (length (classified (events r)) <= 1)%nat
  /\ forall sys usr,
       (sys, usr) ∈ classified (events r) ->
       usr = "SUBJECT: " +:+ Js.dquote +:+ subj +:+ Js.dquote +:+ Js.newline
             +:+ "BODY: " +:+ Js.dquote +:+ cut +:+ "..." +:+ Js.dquote.
Proof.
  intros r cut. subst r cut. split.
  { unfold categorizeEmail, Js.substring0. by rewrite take_units_idempotent. }
  split; [apply count_take_units|].
  split; [apply take_units_short|].
  unfold categorizeEmail.
  destruct (Js.truthy (OPENAI_API_KEY env)); simpl.
  2: { split; [cbn; lia|]. intros sys usr H. by apply not_elem_of_nil in H. }
  unfold try_catch, bind, emit, lift, console_warn, console_error, ret, first_content,
    get_category.
  simpl.
  destruct (chat_completions_create env _ _ _) as [[|content rest]|e]; simpl.
  - split; [cbn; lia|]. intros sys usr H. cbn in H.
    apply list_elem_of_singleton in H. by injection H as -> ->.
  - destruct (Js.truthy content); simpl.
    2: { split; [cbn; lia|]. intros sys usr H. cbn in H.
         apply list_elem_of_singleton in H. by injection H as -> ->. }
    destruct (JSON_parse env _) as [result|e]; simpl.
    2: { split; [cbn; lia|]. intros sys usr H. cbn in H.
         apply list_elem_of_singleton in H. by injection H as -> ->. }
    destruct result; simpl;
      try (split; [cbn; lia|]; intros sys usr H; cbn in H;
           apply list_elem_of_singleton in H; by injection H as -> ->).
    destruct (valid_category (Js.assoc "category" fields)); simpl;
      (split; [cbn; lia|]; intros sys usr H; cbn in H;
       apply list_elem_of_singleton in H; by injection H as -> ->).
  - split; [cbn; lia|]. intros sys usr H. cbn in H.
    apply list_elem_of_singleton in H. by injection H as -> ->.
Qed.

(** X8.  A label of the closed set comes back as it is: when the API key
    is set and the first choice of the oracle is a JSON object whose
    [category] is one of the six labels, the classifier returns that
    label, after one call to the oracle and without a warning. *)
Theorem categorizeEmail_returns_the_oracle_label (env : Env) (subj body : string)
    (s : State) (raw : string) (rest : list (option string))
    (fields : list (string * Js.Json)) (label : string) :
  Js.truthy (OPENAI_API_KEY env) = true ->
  (forall sys usr, chat_completions_create env model sys usr = Returns (Some raw :: rest)) ->
  raw <> EmptyString ->
  JSON_parse env raw = Returns (Js.JObject fields) ->
  Js.assoc "category" fields = Some (Js.JString label) ->
  label ∈ VALID_CATEGORIES ->
  let r := categorizeEmail env subj body s in
  completion r = Returns label
  /\ length (classified (events r)) = 1%nat
  /\ Forall (fun e => forall level args, e = Console level args -> level = LOG) (events r).
Proof.
  intros Hkey Hcall Hraw Hparse Hcat Hin r. subst r.
  unfold categorizeEmail. rewrite Hkey. simpl.
  unfold try_catch, bind, emit, lift, console_warn, console_error, ret, first_content,
    get_category.
  simpl. rewrite Hcall. simpl.
  destruct raw as [|ch raw']; [done|]. simpl.
  change (non_null (Some (String ch raw'))) with (String ch raw'). rewrite Hparse. simpl.
  rewrite Hcat. unfold valid_category.
  assert (Hl : Js.truthy_string label && Js.includes VALID_CATEGORIES label = true).
  { apply andb_true_iff. split; [|by apply includes_iff].
    destruct label; [|done]. apply includes_iff in Hin. discriminate Hin. }
  rewrite Hl. simpl. split; [done|]. split; [done|].
  repeat constructor. intros level args [=].
Qed.

(** The demo oracle answers [Interested]. *)
Lemma categorizeEmail_returns_the_oracle_label_witness :
  completion (categorizeEmail Demo.env "Re: Proposal" "Sounds good, let us talk." initial)
  = Returns "Interested".
Proof.
  refine (proj1 (categorizeEmail_returns_the_oracle_label Demo.env "Re: Proposal"
                   "Sounds good, let us talk." initial Demo.interested_json []
                   [("category", Js.JString "Interested")] "Interested"
                   eq_refl (fun _ _ => eq_refl) _ eq_refl eq_refl _)).
  - vm_compute. discriminate.
  - apply includes_iff. reflexivity.
Defined.

(** ** The server around the pipeline

    ElasticsearchService also bootstraps the index and answers
    searches, and index.ts serves two endpoints and starts the sync.
    Their runs are traced with the requests to the cluster and the HTTP
    responses next to the events of the pipeline. *)

(** *** Search requests and responses *)

(** A clause of an Elasticsearch bool query. *)
Inductive Clause : Type :=
| MultiMatch (query : string) (fields : list string) (type : string)
| MatchAll
| Term (field value : string).

Record BoolQuery : Type := mkBoolQuery {
  bool_must : list Clause;
  bool_filter : list Clause
}.

(** The argument of [client.search]. *)
Record SearchRequest : Type := mkSearchRequest {
  sr_index : string;
  sr_from : Z;
  sr_size : Z;
  sr_sort : list (string * string);
  sr_query : BoolQuery
}.

(** The answer of [client.search], as far as [searchEmails] reads it
    with [?.]: every level may be missing.  A hit is its [_source]. *)
Record HitsTotal : Type := mkHitsTotal { total_value : option Z }.

Record Hits : Type := mkHits {
  hits_total : option HitsTotal;
  hits_hits : option (list EmailDocument)
}.

Record ResponseBody : Type := mkResponseBody { body_hits : option Hits }.

Record SearchResponse : Type := mkSearchResponse { response_body : option ResponseBody }.

(** The value [searchEmails] resolves to. *)
Record SearchResults : Type := mkSearchResults {
  res_emails : list EmailDocument;
  res_total : Z
}.

(** *** HTTP *)


(** The JSON bodies the endpoints send. *)
Inductive Json_body : Type :=
| ResultsBody (results : SearchResults)
| MessageBody (message : string)
| StatusBody (status database ai_service automation_service imap_service : string)
             (accounts_configured : nat).

(** *** Events and collaborators of the server *)

Inductive ServerEvent : Type :=
| Pipeline (e : Event)
| ClientInfo
| IndicesExists (index : string)
| IndicesCreate (index : string) (properties : list (string * string))
| ClientSearch (request : SearchRequest)
| Respond (status : Z) (body : Json_body).

(** The rest of the Elasticsearch client, the [PORT] variable and
    [parseInt] ([None] is [NaN]). *)
Record Host : Type := mkHost {
  PORT : option string;
  parseInt : string -> option Z;
  client_info : Completion unit;
  indices_exists : string -> Completion bool;
  indices_create : string -> list (string * string) -> Completion unit;
  client_search : SearchRequest -> Completion SearchResponse
}.

(** *** The monad of the server: [M] with the wider trace *)

Record ServerRun (A : Type) : Type := mkServerRun {
  outcome : Completion A;
  after : State;
  trace : list ServerEvent
}.
Arguments mkServerRun {A} outcome after trace.
Arguments outcome {A} _.
Arguments after {A} _.
Arguments trace {A} _.

Definition W (A : Type) : Type := State -> ServerRun A.

Definition wret {A} (a : A) : W A :=
  fun s => mkServerRun (Returns a) s [].

Definition wbind {A B} (m : W A) (k : A -> W B) : W B :=
  fun s =>
    match m s with
    | mkServerRun (Returns a) s1 t1 =>
        match k a s1 with
        | mkServerRun c s2 t2 => mkServerRun c s2 (t1 ++ t2)
        end
    | mkServerRun (Throws e) s1 t1 => mkServerRun (Throws e) s1 t1
    end.

Definition wtry_catch {A} (m : W A) (h : Js.Thrown -> W A) : W A :=
  fun s =>
    match m s with
    | mkServerRun (Returns a) s1 t1 => mkServerRun (Returns a) s1 t1
    | mkServerRun (Throws e) s1 t1 =>
        match h e s1 with
        | mkServerRun c s2 t2 => mkServerRun c s2 (t1 ++ t2)
        end
    end.

Definition wemit (e : ServerEvent) : W unit :=
  fun s => mkServerRun (Returns tt) s [e].

Definition wlift {A} (c : Completion A) : W A :=
  fun s => mkServerRun c s [].

Definition wget : W State :=
  fun s => mkServerRun (Returns s) s [].

(** A method of the pipeline called from the server. *)
Definition pipeline {A} (m : M A) : W A :=
  fun s =>
    match m s with
    | mkRun c s1 evs => mkServerRun c s1 (Pipeline <$> evs)
    end.

Declare Scope server_scope.
Delimit Scope server_scope with server.
Notation "x <- m ;; k" := (wbind m (fun x => k))
  (at level 100, m at next level, right associativity) : server_scope.
Notation "m ;; k" := (wbind m (fun _ => k))
  (at level 100, right associativity) : server_scope.

Definition log (level : Level) (args : list string) : W unit :=
  wemit (Pipeline (Console level args)).

Section Server.

Variable env : Env.
Variable host : Host.

Local Open Scope server_scope.

(** *** ElasticsearchService.ts: bootstrap and search *)

(** The [properties] of the mapping [createIndexWithMapping] sends. *)
Definition mapping_properties : list (string * string) :=
  [ ("subject", "text"); ("body_text", "text");
    ("id", "keyword"); ("account_id", "keyword"); ("folder", "keyword");
    ("from", "keyword"); ("to", "keyword");
    ("date", "date");
    ("ai_category", "keyword");
    ("read", "boolean"); ("flags", "keyword") ].

Definition createIndexWithMapping : W unit :=
  wemit (IndicesExists INDEX_NAME) ;;
  exists_ <- wlift (indices_exists host INDEX_NAME) ;;
  if exists_ : bool then
    log LOG ["[Elasticsearch] Index '" +:+ INDEX_NAME +:+ "' already exists."]
  else
    log LOG ["[Elasticsearch] Creating index '" +:+ INDEX_NAME
             +:+ "' with custom mapping..."] ;;
    wemit (IndicesCreate INDEX_NAME mapping_properties) ;;
    wlift (indices_create host INDEX_NAME mapping_properties) ;;
    log LOG ["[Elasticsearch] Index '" +:+ INDEX_NAME +:+ "' created successfully."].

Definition connect : W bool :=
  wtry_catch
    (wemit ClientInfo ;;
     wlift (client_info host) ;;
     log LOG ["[Elasticsearch] Connection successful. Cluster Info received."] ;;
     createIndexWithMapping ;;
     wret true)
    (fun error =>
       log ERROR ["[Elasticsearch] Connection failed. Is Docker running? Error:";
                  Js.message_or_string error] ;;
       wret false).

(** [response.body?.hits?.total?.value ?? 0] *)
Definition total_of (response : SearchResponse) : Z :=
  match response_body response with
  | Some body =>
      match body_hits body with
      | Some h =>
          match hits_total h with
          | Some t => default 0 (total_value t)
          | None => 0
          end
      | None => 0
      end
  | None => 0
  end.

(** [(response.body?.hits?.hits || []).map(hit => hit._source)] *)
Definition emails_of (response : SearchResponse) : list EmailDocument :=
  match response_body response with
  | Some body =>
      match body_hits body with
      | Some h => default [] (hits_hits h)
      | None => []
      end
  | None => []
  end.

(** The parameters with a default take it when they are [undefined]:
    [queryText = ''], [page = 1], [pageSize = 20]. *)
Definition searchEmails (queryText accountId folder_ : option string)
    (page pageSize : option Z) : W SearchResults :=
  let queryText := default EmptyString queryText in
  let page := default 1 page in
  let pageSize := default 20 pageSize in
  let from_ := (page - 1) * pageSize in
  let must :=
    if Js.truthy_string queryText
    then [MultiMatch queryText ["subject"; "body_text"] "best_fields"]
    else [] in
  let filter :=
    (if Js.truthy folder_ then [Term "folder" (non_null folder_)] else [])
    ++ (if Js.truthy accountId then [Term "account_id" (non_null accountId)] else []) in
  let esQuery :=
    {| bool_must := if (0 <? length must)%nat then must else [MatchAll];
       bool_filter := filter |} in
  wtry_catch
    (let request :=
       {| sr_index := INDEX_NAME;
          sr_from := from_;
          sr_size := pageSize;
          sr_sort := [("date", "desc")];
          sr_query := esQuery |} in
     wemit (ClientSearch request) ;;
     response <- wlift (client_search host request) ;;
     let total := total_of response in
     let emails := emails_of response in
     wret {| res_emails := emails; res_total := total |})
    (fun error =>
       log ERROR ["[Elasticsearch] Search failed:"; Js.message_of_any error] ;;
       wret {| res_emails := []; res_total := 0 |}).

(** *** index.ts *)



(** The handler of GET /api/status.  [aiService] and
    [automationService] are objects, always truthy. *)
Definition get_api_status : W unit :=
  esConnected <- connect ;;
  s <- wget ;;
  let imapClientCount := length (clients s) in
  let imapStatus :=
    if (0 <? imapClientCount)%nat then "Initialized and Syncing" else "Not yet started" in
  wemit (Respond 200
           (StatusBody "ReachInbox API Backend is online!"
              (if esConnected : bool then "Elasticsearch Connected and Index Ready"
               else "Elasticsearch Connection FAILED")
              "Ready" "Ready" imapStatus imapClientCount)).

(** The callback of [app.listen]. *)
Definition on_listening : W unit :=
  log LOG ["⚡️[server]: Server is running at http://localhost:"
           +:+ Js.or_else (PORT host) "3000"] ;;
  esConnected <- connect ;;
  if esConnected : bool then
    log LOG ["--- Starting IMAP Sync and IDLE mode for all accounts ---"] ;;
    pipeline (startSync env)
  else
    log ERROR ["IMAP Sync SKIPPED: Cannot start without a healthy Elasticsearch connection."].

End Server.

(** *** Reading the trace of the server *)

Definition creation (e : ServerEvent) : option string :=
  match e with
  | IndicesCreate index _ => Some index
  | _ => None
  end.

Definition search_request (e : ServerEvent) : option SearchRequest :=
  match e with
  | ClientSearch request => Some request
  | _ => None
  end.

Definition response (e : ServerEvent) : option (Z * Json_body) :=
  match e with
  | Respond status body => Some (status, body)
  | _ => None
  end.

Definition pipeline_event (e : ServerEvent) : option Event :=
  match e with
  | Pipeline ev => Some ev
  | _ => None
  end.

(** The indices created, the searches sent, the HTTP responses and the
    events of the pipeline, each in order. *)
Definition created (t : list ServerEvent) : list string := omap creation t.
Definition searches (t : list ServerEvent) : list SearchRequest := omap search_request t.
Definition responses (t : list ServerEvent) : list (Z * Json_body) := omap response t.
Definition pipeline_events (t : list ServerEvent) : list Event := omap pipeline_event t.

(** What [connect] resolves to, by the answers of the cluster. *)
Definition connected (host : Host) : bool :=
  match client_info host, indices_exists host INDEX_NAME with
  | Returns _, Returns true => true
  | Returns _, Returns false =>
      match indices_create host INDEX_NAME mapping_properties with
      | Returns _ => true
      | Throws _ => false
      end
  | _, _ => false
  end.

Lemma connect_run (host : Host) (s : State) :
  exists t,
    connect host s = mkServerRun (Returns (connected host)) s t
    /\ created t = match client_info host, indices_exists host INDEX_NAME with
                   | Returns _, Returns false => [INDEX_NAME]
                   | _, _ => []
                   end
    /\ responses t = []
    /\ searches t = []
    /\ Forall (fun e => session_of e = None) (pipeline_events t).
Proof.
  unfold connect, connected, createIndexWithMapping, wtry_catch, wbind, wemit, wlift,
    wret, log.
  simpl. destruct (client_info host) as [[]|e]; simpl.
  2: { eexists. split; [reflexivity|]. cbn. repeat split; repeat constructor. }
  destruct (indices_exists host INDEX_NAME) as [[]|e]; simpl.
  - eexists. split; [reflexivity|]. cbn. repeat split; repeat constructor.
  - destruct (indices_create host INDEX_NAME mapping_properties) as [[]|e]; simpl;
      (eexists; split; [reflexivity|]; cbn; repeat split; repeat constructor).
  - eexists. split; [reflexivity|]. cbn. repeat split; repeat constructor.
Qed.

(** X9.  The bootstrap of the index never throws and leaves the state
    alone.  It asks for the creation of the index only when the cluster
    is reachable and says the index does not exist, and then once; it
    resolves to [true] exactly when the cluster is reachable and the
    index exists or was created. *)
Theorem connect_creates_a_missing_index_once (host : Host) (s : State) :
  let r := connect host s in
  after r = s
  /\ created (trace r)
     = match client_info host, indices_exists host INDEX_NAME with
       | Returns _, Returns false => [INDEX_NAME]
       | _, _ => []
       end
  /\ exists b,
       outcome r = Returns b
       /\ (b = true <->
           client_info host = Returns tt
           /\ (indices_exists host INDEX_NAME = Returns true
               \/ (indices_exists host INDEX_NAME = Returns false
                   /\ indices_create host INDEX_NAME mapping_properties = Returns tt))).
Proof.
  intros r. subst r. destruct (connect_run host s) as (t & -> & Hc & _).
  split; [done|]. split; [exact Hc|]. exists (connected host). split; [done|].
  unfold connected.
  destruct (client_info host) as [[]|e]; [|split; [done|by intros [[=] _]]].
  destruct (indices_exists host INDEX_NAME) as [[]|e].
  - split; [|done]. intros _. split; [done|]. by left.
  - destruct (indices_create host INDEX_NAME mapping_properties) as [[]|e].
    + split; [|done]. intros _. split; [done|]. right. done.
    + split; [done|]. intros [_ [[=]|[_ [=]]]].
  - split; [done|]. intros [_ [[=]|[[=] _]]].
Qed.

(** *** Search *)

(** The request [searchEmails] sends for its arguments. *)
Definition request_of (queryText accountId folder_ : option string)
    (page pageSize : option Z) : SearchRequest :=
  {| sr_index := INDEX_NAME;
     sr_from := (default 1 page - 1) * default 20 pageSize;
     sr_size := default 20 pageSize;
     sr_sort := [("date", "desc")];
     sr_query :=
       {| bool_must :=
            if Js.truthy queryText
            then [MultiMatch (non_null queryText) ["subject"; "body_text"] "best_fields"]
            else [MatchAll];
          bool_filter :=
            (if Js.truthy folder_ then [Term "folder" (non_null folder_)] else [])
            ++ (if Js.truthy accountId then [Term "account_id" (non_null accountId)]
                else []) |} |}.

Lemma searchEmails_run (host : Host) (queryText accountId folder_ : option string)
    (page pageSize : option Z) (s : State) :
  let request := request_of queryText accountId folder_ page pageSize in
  searchEmails host queryText accountId folder_ page pageSize s
  = match client_search host request with
    | Returns response =>
        mkServerRun (Returns {| res_emails := emails_of response;
                                res_total := total_of response |})
                    s [ClientSearch request]
    | Throws e =>
        mkServerRun (Returns {| res_emails := []; res_total := 0 |}) s
                    [ClientSearch request;
                     Pipeline (Console ERROR ["[Elasticsearch] Search failed:";
                                              Js.message_of_any e])]
    end.
Proof.
  unfold searchEmails, request_of, wtry_catch, wbind, wemit, wlift, wret, log.
  cbv zeta.
  assert (Hm : (if (0 <? length (if Js.truthy_string (default EmptyString queryText)
                                 then [MultiMatch (default EmptyString queryText)
                                                  ["subject"; "body_text"] "best_fields"]
                                 else []))%nat
                then (if Js.truthy_string (default EmptyString queryText)
                      then [MultiMatch (default EmptyString queryText)
                                       ["subject"; "body_text"] "best_fields"]
                      else [])
                else [MatchAll])
               = (if Js.truthy queryText
                  then [MultiMatch (non_null queryText) ["subject"; "body_text"]
                                   "best_fields"]
                  else [MatchAll])).
  { destruct queryText as [[|c qt]|]; reflexivity. }
  rewrite Hm.
  destruct (client_search host _) as [response|e]; reflexivity.
Qed.


(** X11.  The request of a search always has exactly one [must] clause,
    the text search or [match_all], and one [term] filter for each of
    folder and account that is given and not empty, and no other.  An
    empty text or filter counts as none.  Page [p] starts at
    [(p - 1) * pageSize], so consecutive pages tile the results, and the
    defaults are page 1 and 20 documents. *)
Theorem searchEmails_request_is_well_formed (host : Host)
    (queryText accountId folder_ : option string) (page pageSize : option Z) (s : State) :
  let r := searchEmails host queryText accountId folder_ page pageSize s in
  exists request,
    searches (trace r) = [request]
    /\ sr_index request = INDEX_NAME
    /\ length (bool_must (sr_query request)) = 1%nat
    /\ (forall field value,
          Term field value ∈ bool_filter (sr_query request) <->
          value <> EmptyString
          /\ ((field = "folder" /\ folder_ = Some value)
              \/ (field = "account_id" /\ accountId = Some value)))
    /\ (forall c, c ∈ bool_filter (sr_query request) -> exists field value, c = Term field value)
    /\ sr_size request = default 20 pageSize
    /\ sr_from request = (default 1 page - 1) * sr_size request
    /\ (forall p size,
          page = Some p -> pageSize = Some size ->
          sr_from (request_of queryText accountId folder_ (Some (p + 1)) pageSize)
          = sr_from request + sr_size request)
    /\ request = request_of (if Js.truthy queryText then queryText else None)
                            (if Js.truthy accountId then accountId else None)
                            (if Js.truthy folder_ then folder_ else None)
                            page pageSize.
Proof.
  intros r. subst r. rewrite searchEmails_run. cbv zeta.
  exists (request_of queryText accountId folder_ page pageSize). split.
  { by destruct (client_search host _). }
  unfold request_of. cbn [sr_index sr_query bool_must bool_filter sr_size sr_from].
  split_and!; try done.
  - by destruct (Js.truthy queryText).
  - intros field value. rewrite elem_of_app.
    destruct folder_ as [[|c f]|], accountId as [[|c' a]|]; cbn;
      rewrite ?list_elem_of_singleton, ?elem_of_nil;
      intuition (simplify_eq; try done; auto).
  - intros c Hc. apply elem_of_app in Hc.
    destruct (Js.truthy folder_), (Js.truthy accountId), Hc as [Hc|Hc];
      try (by apply not_elem_of_nil in Hc);
      apply list_elem_of_singleton in Hc; subst c; by eexists _, _.
  - intros p size -> ->. simpl. lia.
  - destruct queryText as [[|c qt]|], accountId as [[|c' a]|], folder_ as [[|c'' f]|];
      reflexivity.
Qed.

(** *** The endpoints and the start of the server *)



(** X13.  GET /api/status runs the bootstrap of the index on every
    call, so it too creates a missing index.  It answers once, with
    status 200, the database reported by the outcome of the bootstrap
    and the IMAP service by whether any account is recorded among the
    clients, and it changes nothing in the state. *)
Theorem get_api_status_reports_and_bootstraps (host : Host) (s : State) :
  let r := get_api_status host s in
  outcome r = Returns tt
  /\ after r = s
  /\ created (trace r) = created (trace (connect host s))
  /\ responses (trace r)
     = [(200,
         StatusBody "ReachInbox API Backend is online!"
           (if connected host then "Elasticsearch Connected and Index Ready"
            else "Elasticsearch Connection FAILED")
           "Ready" "Ready"
           (match clients s with
            | [] => "Not yet started"
            | _ :: _ => "Initialized and Syncing"
            end)
           (length (clients s)))].
Proof.
  intros r. subst r. unfold get_api_status, wbind, wget, wemit.
  destruct (connect_run host s) as (t & -> & Hc & Hr & _). cbn [outcome after trace].
  unfold created, responses in *. rewrite !omap_app, Hr. cbn.
  rewrite app_nil_r. split_and!; try done.
  by destruct (clients s).
Qed.

Lemma connectAndSyncAccount_records_client (env : Env) (config : AccountConfig)
    (s : State) :
  cfg_id config ∈ clients (final (connectAndSyncAccount env config s)).
Proof.
  assert (Hin : cfg_id config ∈ clients (set_clients (map_set (cfg_id config)) s)).
  { simpl. unfold map_set. case_bool_decide; [done|]. apply elem_of_app. right. by left. }
  destruct (imap_connect env config) as [[]|e] eqn:Hconn.
  - rewrite (connectAndSyncAccount_connected env config s Hconn). cbv zeta.
    destruct (initialSync_keeps_registry env (cfg_id config)
                (set_clients (map_set (cfg_id config)) s)) as [Hc _].
    cbn [final]. destruct (completion _); simpl; by rewrite Hc.
  - by rewrite (connectAndSyncAccount_connect_fails env config s e Hconn).
Qed.

Lemma startSync_records_first_account (env : Env) (s : State) :
  "gmail-account-1" ∈ clients (final (startSync env s)).
Proof.
  unfold startSync, ACCOUNT_CONFIGS. rewrite sync_accounts_cons. cbv zeta. cbn [final].
  match goal with
  | |- _ ∈ clients (final (sync_accounts env ?rest ?s1)) =>
      assert (Hev : evolves s1 (final (sync_accounts env rest s1)))
        by (apply (sync_accounts_preserves env evolves);
            auto using evolves_index, evolves_tick, evolves_client, evolves_listener);
      destruct Hev as (_ & _ & _ & Hcl & _); apply Hcl
  end.
  unfold sync_account, configured. cbn.
  apply (connectAndSyncAccount_records_client env
           {| cfg_id := "gmail-account-1"; host := "imap.gmail.com"; port := 993;
              secure := true;
              auth := {| user := IMAP_ACCOUNT_1_USER env;
                         pass := IMAP_ACCOUNT_1_PASS env |} |}).
Qed.

Lemma on_listening_run (env : Env) (host : Host) (s : State) :
  exists t0,
    Forall (fun e => session_of e = None) (pipeline_events t0)
    /\ on_listening env host s
       = if connected host
         then mkServerRun (Returns tt) (final (startSync env s))
                (t0 ++ (Pipeline <$> events (startSync env s)))
         else mkServerRun (Returns tt) s
                (t0 ++ [Pipeline (Console ERROR
                          ["IMAP Sync SKIPPED: Cannot start without a healthy Elasticsearch connection."])]).
Proof.
  unfold on_listening, wbind, log, wemit, pipeline.
  destruct (connect_run host s) as (t & -> & _ & _ & _ & Ht).
  pose proof (sync_accounts_returns env (ACCOUNT_CONFIGS env) s) as Hret.
  fold (startSync env) in Hret.
  destruct (connected host).
  - destruct (startSync env s) as [c f evs]. simpl in *. subst c.
    eexists (_ :: t ++ [_]). split; [|simpl; rewrite <- ?app_assoc; reflexivity].
    unfold pipeline_events in *. cbn. rewrite omap_app. cbn.
    constructor; [done|]. apply Forall_app. split; [done|]. by repeat constructor.
  - eexists (_ :: t). split; [|reflexivity].
    unfold pipeline_events in *. cbn. by constructor.
Qed.

(** X14.  The callback of [listen] never throws, and it starts the sync
    of the accounts exactly when the bootstrap of the store succeeded:
    then the whole of [startSync] runs after it; otherwise the skip is
    logged, no operation on a mail session happens and the state is
    unchanged. *)
Theorem sync_starts_only_with_the_store (env : Env) (host : Host) (s : State) :
  let r := on_listening env host s in
  outcome r = Returns tt
  /\ if connected host
     then after r = final (startSync env s)
          /\ exists before,
               trace r = before ++ (Pipeline <$> events (startSync env s))
               /\ Forall (fun e => session_of e = None) (pipeline_events before)
     else after r = s
          /\ Forall (fun e => session_of e = None) (pipeline_events (trace r))
          /\ Pipeline (Console ERROR
               ["IMAP Sync SKIPPED: Cannot start without a healthy Elasticsearch connection."])
             ∈ trace r.
Proof.
  intros r. subst r. destruct (on_listening_run env host s) as (t0 & Ht0 & ->).
  destruct (connected host); cbn [outcome after trace].
  - split; [done|]. split; [done|]. by exists t0.
  - split; [done|]. split; [done|]. split.
    + unfold pipeline_events in *. rewrite omap_app. apply Forall_app.
      split; [done|]. by repeat constructor.
    + apply elem_of_app. right. by left.
Qed.

(** X15.  Once the server has started with a working store, the status
    endpoint reports the IMAP service as "Initialized and Syncing" with
    at least one account, whether or not any connection to a mail server
    succeeded: an account counts from the moment its connection is
    attempted. *)
Theorem status_counts_attempted_accounts (env : Env) (host : Host) (s : State) :
  connected host = true ->
  let s1 := after (on_listening env host s) in
  "gmail-account-1" ∈ clients s1
  /\ exists database n,
       responses (trace (get_api_status host s1))
       = [(200, StatusBody "ReachInbox API Backend is online!" database "Ready" "Ready"
                           "Initialized and Syncing" n)]
       /\ (1 <= n)%nat.
Proof.
  intros Hconn s1. subst s1.
  destruct (on_listening_run env host s) as (t0 & _ & ->). rewrite Hconn. cbn [after].
  pose proof (startSync_records_first_account env s) as Hin.
  split; [exact Hin|].
  remember (final (startSync env s)) as s1 eqn:Heq. clear Heq.
  unfold get_api_status, wbind, wget, wemit.
  destruct (connect_run host s1) as (t & -> & _ & Hr & _).
  cbn [trace]. unfold responses in *. rewrite !omap_app, Hr.
  destruct (clients s1) as [|a l].
  { by apply not_elem_of_nil in Hin. }
  eexists _, _. split; [reflexivity|]. simpl. lia.
Qed.

(** ** The front end (App.tsx)

    The functions of the component that decide what is asked of the
    backend and what is shown; rendering itself is left out.  A call of
    [fetchEmails] is modelled by the state it leaves once all its
    updates are applied, with the requests it sent. *)

Module App.

Definition pageSize : Z := 10.

(** [haystack.includes(needle)] *)
Fixpoint includes (needle haystack : string) : bool :=
  String.prefix needle haystack
  || match haystack with
     | EmptyString => false
     | String _ rest => includes needle rest
     end.

(** The [Status] the backend reports; every field may be missing. *)
Record Status : Type := mkStatus {
  status : option string;
  database : option string;
  imap_service : option string;
  ai_service : option string
}.

(** The state of the component. *)
Record AppState : Type := mkAppState {
  emails : list EmailDocument;
  searchTerm : string;
  filterAccount : string;
  filterFolder : string;
  loading : bool;
  totalResults : Z;
  backend : Status;
  page : Z
}.




(** [status.database && status.database.includes('FAILED')] *)
Definition database_failed (st : AppState) : bool :=
  match database (backend st) with
  | Some db => Js.truthy_string db && includes "FAILED" db
  | None => false
  end.


(** [Math.ceil(totalResults / pageSize)] *)
Definition totalPages (st : AppState) : Z := - ((- totalResults st) / pageSize).

(** The pagination controls are rendered when [totalPages > 1]; each
    button is disabled at its end of the range and while loading. *)
Definition shows_pagination (st : AppState) : bool := 1 <? totalPages st.
Definition previous_disabled (st : AppState) : bool := (page st =? 1) || loading st.
Definition next_disabled (st : AppState) : bool := (page st =? totalPages st) || loading st.

(** [StatusBadge]: the badge is green when [isHealthy]. *)
Definition isHealthy (value : string) : bool :=
  includes "Connected" value || includes "Ready" value
  || includes "Syncing" value || includes "Initialized" value.

(** The four badges of the page, each with its fallback ['Offline']. *)
Definition backend_badge (st : Status) : string := Js.or_else (status st) "Offline".
Definition database_badge (st : Status) : string := Js.or_else (database st) "Offline".
Definition imap_badge (st : Status) : string := Js.or_else (imap_service st) "Offline".
Definition ai_badge (st : Status) : string := Js.or_else (ai_service st) "Offline".

(** The [Status] the component holds after [fetchStatus]: the JSON of
    the response, or the fallback when the request failed. *)
Definition fetchStatus (answer : Completion Json_body) : Status :=
  match answer with
  | Returns (StatusBody st db ai automation imap n) =>
      {| status := Some st; database := Some db; imap_service := Some imap;
         ai_service := Some ai |}
  | Returns _ =>
      {| status := None; database := None; imap_service := None; ai_service := None |}
  | Throws _ =>
      {| status := Some "Backend Offline"; database := Some "Failed to Connect";
         imap_service := None; ai_service := None |}
  end.

End App.

(** A host where the cluster answers and the index exists. *)
Module DemoServer.

Definition host : Host :=
  {| PORT := None;
     parseInt := fun _ => None;
     client_info := Returns tt;
     indices_exists := fun _ => Returns true;
     indices_create := fun _ _ => Returns tt;
     client_search := fun _ => Returns {| response_body := None |} |}.

(** No mail server accepts a connection. *)
Definition env_all_down : Env :=
  Demo.make (fun _ => Throws (Demo.refuse "ECONNREFUSED")) Demo.mailbox
            (fun _ => Returns tt).

End DemoServer.

Lemma get_api_status_run_body (host : Host) (s : State) :
  exists body,
    responses (trace (get_api_status host s)) = [(200, body)]
    /\ body = StatusBody "ReachInbox API Backend is online!"
                (if connected host then "Elasticsearch Connected and Index Ready"
                 else "Elasticsearch Connection FAILED")
                "Ready" "Ready"
                (match clients s with
                 | [] => "Not yet started"
                 | _ :: _ => "Initialized and Syncing"
                 end)
                (length (clients s)).
Proof.
  unfold get_api_status, wbind, wget, wemit.
  destruct (connect_run host s) as (t & -> & _ & Hr & _). cbn [trace].
  unfold responses in *. rewrite !omap_app, Hr. cbn.
  eexists. split; [reflexivity|]. by destruct (clients s).
Qed.

(** Every connection to a mail server is refused, the store works. *)
Lemma status_counts_attempted_accounts_witness :
  "gmail-account-1"
    ∈ clients (after (on_listening DemoServer.env_all_down DemoServer.host initial)).
Proof.
  exact (proj1 (status_counts_attempted_accounts DemoServer.env_all_down DemoServer.host
                  initial eq_refl)).
Defined.

(** *** The front end *)

(** X16.  For a total that is not negative, the pages 1 to [totalPages]
    cover the results exactly: each of them starts inside the results at
    the offset the backend computes for it, every result lies on one of
    them, and there is no page when there is no result.  The pagination
    controls appear when there are more than 10 results, and while the
    current page is in range a button that is enabled leads to a page in
    range. *)
Theorem pagination_covers_the_results (st : App.AppState) :
  0 <= App.totalResults st ->
  let n := App.totalPages st in
  let offset p := sr_from (request_of None None None (Some p) (Some App.pageSize)) in
  0 <= n
  /\ (n = 0 <-> App.totalResults st = 0)
  /\ (forall p, 1 <= p <= n -> 0 <= offset p < App.totalResults st)
  /\ (forall i, 0 <= i < App.totalResults st ->
        exists p, 1 <= p <= n /\ offset p <= i < offset p + App.pageSize)
  /\ (App.shows_pagination st = true <-> App.pageSize < App.totalResults st)
  /\ (1 <= App.page st <= n ->
      (App.previous_disabled st = false -> 1 <= App.page st - 1 <= n)
      /\ (App.next_disabled st = false -> 1 <= App.page st + 1 <= n)).
Proof.
  intros Hpos n offset. subst n offset.
  unfold App.totalPages, App.shows_pagination, App.previous_disabled, App.next_disabled,
    App.pageSize, request_of.
  cbn [sr_from default].
  set (total := App.totalResults st) in *.
  assert (Hdiv : - total = 10 * (- total / 10) + (- total) mod 10)
    by (apply Z.div_mod; lia).
  assert (Hmod : 0 <= (- total) mod 10 < 10) by (apply Z.mod_pos_bound; lia).
  split_and!.
  - lia.
  - lia.
  - intros p Hp. unfold Datatypes.id. lia.
  - intros i Hi. exists (i / 10 + 1). unfold Datatypes.id.
    assert (Hi10 : i = 10 * (i / 10) + i mod 10) by (apply Z.div_mod; lia).
    assert (Him : 0 <= i mod 10 < 10) by (apply Z.mod_pos_bound; lia).
    lia.
  - rewrite Z.ltb_lt. unfold App.totalPages, App.pageSize. fold total. lia.
  - unfold App.totalPages, App.pageSize. fold total. intros Hpage. split.
    + intros Hprev. apply orb_false_iff in Hprev as [Hne _].
      apply Z.eqb_neq in Hne. lia.
    + intros Hnext. apply orb_false_iff in Hnext as [Hne _].
      apply Z.eqb_neq in Hne. lia.
Qed.

(** Twenty-five results make three pages. *)
Lemma pagination_covers_the_results_witness :
  let st := {| App.emails := []; App.searchTerm := EmptyString;
               App.filterAccount := "all"; App.filterFolder := "all";
               App.loading := false; App.totalResults := 25;
               App.backend := App.fetchStatus (Throws (Js.Error "offline"));
               App.page := 1 |} in
  App.totalPages st = 3 /\ App.shows_pagination st = true.
Proof.
  destruct (pagination_covers_the_results
              {| App.emails := []; App.searchTerm := EmptyString;
                 App.filterAccount := "all"; App.filterFolder := "all";
                 App.loading := false; App.totalResults := 25;
                 App.backend := App.fetchStatus (Throws (Js.Error "offline"));
                 App.page := 1 |}) as (_ & _ & _ & _ & Hshow & _).
  - simpl. lia.
  - split; [reflexivity|]. apply Hshow. reflexivity.
Defined.

(** X17.  The status the backend reports reads as follows in the front
    end: the database badge is green exactly when the bootstrap of the
    store succeeded, the IMAP badge exactly when an account is recorded
    among the clients, the AI badge always, and the backend badge never,
    because the text the backend reports for itself contains none of the
    words the badge looks for.  [fetchEmails] holds back its request
    exactly when the reported bootstrap failed.  When the status request
    itself fails, all four badges are red and the request for emails is
    not held back. *)
Theorem front_end_reads_the_reported_status (host : Host) (s : State) :
  (exists body,
     responses (trace (get_api_status host s)) = [(200, body)]
     /\ let st := App.fetchStatus (Returns body) in
        App.isHealthy (App.backend_badge st) = false
        /\ App.isHealthy (App.database_badge st) = connected host
        /\ App.isHealthy (App.imap_badge st) = negb (bool_decide (clients s = []))
        /\ App.isHealthy (App.ai_badge st) = true
        /\ forall ui, App.backend ui = st ->
                      App.database_failed ui = negb (connected host))
  /\ forall e,
       let st := App.fetchStatus (Throws e) in
       App.isHealthy (App.backend_badge st) = false
       /\ App.isHealthy (App.database_badge st) = false
       /\ App.isHealthy (App.imap_badge st) = false
       /\ App.isHealthy (App.ai_badge st) = false
       /\ forall ui, App.backend ui = st -> App.database_failed ui = false.
Proof.
  split.
  - destruct (get_api_status_run_body host s) as (body & Hresp & ->).
    eexists. split; [exact Hresp|]. cbv zeta.
    destruct (connected host), (clients s) as [|a l]; cbn [App.fetchStatus];
      (split_and!; [vm_compute; reflexivity..|]);
      intros ui Hui; unfold App.database_failed; rewrite Hui; vm_compute; reflexivity.
  - intros e. cbv zeta. cbn [App.fetchStatus].
    split_and!; [vm_compute; reflexivity..|].
    intros ui Hui. unfold App.database_failed. rewrite Hui. vm_compute. reflexivity.
Qed.

